(** * NBA bi-player statistics: the comparative statistics engine

    A shallow embedding of [utils.py] and [parsing.py]: the score and date
    normalizers, the row matcher, the participation classifier, the
    category splitter, the win-ratio aggregator and the joint sorter,
    followed by the properties the specification states about them.
    The argument checks of [docs.py], the remaining helpers of [utils.py]
    and the two places where [visualizing.py] computes on that data come
    with further properties read off the code.

    Conventions of the embedding.
    - A Python [str] is a [string]; a character is a code point below 256.
      In that range the regular-expression class [\d] is exactly ['0'..'9'].
    - A Python [int] is a [Z]; [int()] on a run of digits is total (the
      interpreter's configurable cap on the length of a decimal literal is
      not part of the model).
    - A raised exception is a value [Raise e] of the [result] monad; a
      function that cannot raise on well-typed arguments is a plain
      function.  Arguments have the types the Python signatures and the
      run-time type guards ask for, so the [TypeError] guards never fire. *)

From Stdlib Require Import ZArith QArith Ascii String List Permutation Sorted Lia Floats.
From Stdlib Require Import DecimalString.
From Stdlib Require DecimalPos.
From stdpp Require Import base option list strings gmap.

Local Open Scope string_scope.
Local Open Scope Z_scope.

(* Concatenations of string literals are to unfold under [simpl]. *)
#[local] Arguments String.append !_ _ : simpl nomatch.

(** ** Exceptions *)

Inductive exn : Type :=
  | TypeError | ValueError | IndexError | KeyError
  | ZeroDivisionError | OverflowError.

Inductive result (A : Type) : Type :=
  | Ok (a : A)
  | Raise (e : exn).
Arguments Ok {A} a.
Arguments Raise {A} e.

#[global] Instance result_ret : MRet result := fun A a => Ok a.
#[global] Instance result_bind : MBind result := fun A B f m =>
  match m with
  | Ok a => f a
  | Raise e => Raise e
  end.
#[global] Instance result_fmap : FMap result := fun A B f m =>
  match m with
  | Ok a => Ok (f a)
  | Raise e => Raise e
  end.

(** [seq[i]] on a list or tuple. *)
Definition getitem {A : Type} (l : list A) (i : nat) : result A :=
  match l !! i with
  | Some a => Ok a
  | None => Raise IndexError
  end.

(** ** Strings *)

Module Str.

(** [c in s] for a one-character [c]. *)
Fixpoint contains (c : ascii) (s : string) : bool :=
  match s with
  | EmptyString => false
  | String d s' => if Ascii.eqb c d then true else contains c s'
  end.

(** [all(p(i) for i in s)]. *)
Fixpoint all (p : ascii -> bool) (s : string) : bool :=
  match s with
  | EmptyString => true
  | String c s' => p c && all p s'
  end.

(** The class [\d]. *)
Definition is_digit (c : ascii) : bool :=
  let n := N_of_ascii c in ((48 <=? n) && (n <=? 57))%N.

Definition digit_value (c : ascii) : Z := Z.of_N (N_of_ascii c) - 48.

Definition flush (cur : string) : list string :=
  match cur with
  | EmptyString => []
  | _ => [cur]
  end.

(** The scanner behind [re.findall(r"\d+", s)]: [cur] is the run being
    read; a non-digit or the end of the text closes it. *)
Fixpoint findall_from (cur : string) (s : string) : list string :=
  match s with
  | EmptyString => flush cur
  | String c s' =>
      if is_digit c then findall_from (cur +:+ String c EmptyString) s'
      else flush cur ++ findall_from EmptyString s'
  end.

Definition findall_digits (s : string) : list string := findall_from EmptyString s.

(** [int(i)] on a run of digits. *)
Fixpoint int_from (acc : Z) (s : string) : Z :=
  match s with
  | EmptyString => acc
  | String c s' => int_from (10 * acc + digit_value c) s'
  end.

Definition int_of_digits (s : string) : Z := int_from 0 s.

(** [f"{n}"] for an [int]. *)
Definition str_of_int (n : Z) : string := NilZero.string_of_int (Z.to_int n).

(** [s.replace(old, new, count)] for a non-empty [old]; [count = None] is
    the call without a count.  [skip] is the number of characters of a
    replaced occurrence still to be passed over. *)
Fixpoint replace_from (old new : string) (count : option nat) (skip : nat)
    (s : string) : string :=
  match s with
  | EmptyString => EmptyString
  | String c s' =>
      match skip with
      | S k => replace_from old new count k s'
      | O =>
          let allowed := match count with Some O => false | _ => true end in
          if allowed && String.prefix old s then
            new +:+ replace_from old new (pred <$> count) (String.length old - 1) s'
          else String c (replace_from old new count 0 s')
      end
  end.

Definition replace (old new : string) (count : option nat) (s : string) : string :=
  replace_from old new count 0 s.

End Str.

(** ** Coordinate normalizer ([utils.score_to_tuple], [utils.date_convert]) *)

Definition score_alphabet : string := "0123456789-WLOT ".

Definition score_to_tuple (score : string) : option (list Z) :=
  if negb (Str.all (fun i => Str.contains i score_alphabet) score) then None
  else
    let numbers := take 2 (Str.int_of_digits <$> Str.findall_digits score) in
    if Str.contains "W" score then Some numbers
    else Some (reverse numbers).

Definition months : list string :=
  ["Jan"; "Feb"; "Mar"; "Apr"; "May"; "Jun";
   "Jul"; "Aug"; "Sep"; "Oct"; "Nov"; "Dec"].

(** [{i+1: f", {j} " for i, j in enumerate(months)}] *)
Definition number_to_month : gmap Z string :=
  list_to_map (imap (fun i j => (Z.of_nat i + 1, ", " +:+ j +:+ " ")) months).

Definition date_convert (date : string) : result string :=
  match Str.int_of_digits <$> Str.findall_digits date with
  | [] => Raise IndexError
  | month_number :: _ =>
      match number_to_month !! month_number with
      | None => Raise KeyError
      | Some month =>
          let date := Str.replace (Str.str_of_int month_number) month (Some 1%nat) date in
          let date := Str.replace "/" EmptyString None (Str.replace " " EmptyString (Some 1%nat) date) in
          Ok date
      end
  end.

(** ** Tables

    A [pandas.DataFrame] is a sequence of rows, each under its index
    label; a [pandas.Series] taken from a column carries the same labels.
    [get_stats] drops every row with a missing value and returns the
    columns [x], [y], [date] (and [score] for a player), so game rows have
    plain fields, and a frame always has those columns, also when it has
    no row.  The classified table adds [color] and [ecolor]; its cells may
    be missing ([NaN]) because a column assignment can re-index a frame.
    [df.apply(f, axis = 1)] is [f] applied to the rows in order. *)

Abbreviation label := Z (only parsing).
Abbreviation Series A := (list (label * A)) (only parsing).
Abbreviation DataFrame R := (list (label * R)) (only parsing).

Record GameRow : Type := { x : Z; y : Z; date : string }.
Record PlayerRow : Type := { p_x : Z; p_y : Z; p_date : string; score : Z }.

(** [row[:-1]] on a player's row: the trailing [score] is dropped. *)
Definition drop_score (r : PlayerRow) : GameRow :=
  {| x := p_x r; y := p_y r; date := p_date r |}.

Inductive cell (A : Type) : Type :=
  | NaN
  | Val (a : A).
Arguments NaN {A}.
Arguments Val {A} a.

Record ColoredRow : Type :=
  { c_x : cell Z; c_y : cell Z; c_date : cell string;
    color : cell string; ecolor : cell string }.

Definition nan_row : ColoredRow :=
  {| c_x := NaN; c_y := NaN; c_date := NaN; color := NaN; ecolor := NaN |}.

Definition set_color (v : cell string) (r : ColoredRow) : ColoredRow :=
  {| c_x := c_x r; c_y := c_y r; c_date := c_date r; color := v; ecolor := ecolor r |}.
Definition set_ecolor (v : cell string) (r : ColoredRow) : ColoredRow :=
  {| c_x := c_x r; c_y := c_y r; c_date := c_date r; color := color r; ecolor := v |}.

(** Columns [x] and [y] of a table, whatever else its rows hold. *)
Class XY (R : Type) : Type := { col_x : R -> cell Z; col_y : R -> cell Z }.
#[global] Instance GameRow_XY : XY GameRow :=
  {| col_x r := Val (x r); col_y r := Val (y r) |}.
#[global] Instance ColoredRow_XY : XY ColoredRow :=
  {| col_x := c_x; col_y := c_y |}.

Module Pd.

(** Element-wise [==] and [<]: a missing value compares false. *)
Definition cell_eq_str (a : cell string) (b : string) : bool :=
  match a with
  | Val s => String.eqb s b
  | NaN => false
  end.

Definition cell_lt (a b : cell Z) : bool :=
  match a, b with
  | Val u, Val v => u <? v
  | _, _ => false
  end.

(** [df[mask]] with a boolean Series over the frame's own index. *)
Fixpoint select {R : Type} (df : DataFrame R) (mask : Series bool) : DataFrame R :=
  match df, mask with
  | r :: df', (_, b) :: mask' => if b then r :: select df' mask' else select df' mask'
  | _, _ => []
  end.

(** [~mask] *)
Definition invert (mask : Series bool) : Series bool :=
  (fun m => (m.1, negb m.2)) <$> mask.

(** [df[name]] and [series.apply(f)] *)
Definition column {R A : Type} (f : R -> A) (df : DataFrame R) : Series A :=
  (fun r => (r.1, f r.2)) <$> df.
Definition apply {A B : Type} (f : A -> B) (s : Series A) : Series B :=
  (fun v => (v.1, f v.2)) <$> s.

(** The value a Series holds under a label, [NaN] when the label is absent. *)
Fixpoint at_label {A : Type} (s : Series A) (l : label) : cell A :=
  match s with
  | [] => NaN
  | (k, v) :: s' => if Z.eqb k l then Val v else at_label s' l
  end.

(** [df[name] = value] for a Series [value]; [set] writes the column.
    A frame without rows first takes over the index of a non-empty
    [value], every other cell missing.  The values are then aligned on
    the labels: taken in order when the two indexes agree, looked up by
    label otherwise, which pandas refuses when the labels of [value]
    repeat. *)
Definition setitem {R : Type} (blank : R) (set : cell string -> R -> R)
    (df : DataFrame R) (value : Series string) : result (DataFrame R) :=
  let df :=
    match df, value with
    | [], _ :: _ => (fun v => (v.1, blank)) <$> value
    | _, _ => df
    end in
  if bool_decide (df.*1 = value.*1) || bool_decide (df = [])
  then Ok (zip_with (fun r v => (r.1, set (Val v.2) r.2)) df value)
  else if bool_decide (NoDup value.*1)
  then Ok ((fun r => (r.1, set (at_label value r.1) r.2)) <$> df)
  else Raise ValueError.

End Pd.

(** ** Row matcher ([utils.row_in_df], [utils.keep_row_if_in_df]) *)

(** [df == row]: one line of booleans per row of [df], one boolean per
    column. *)
Definition frame_eq (df : DataFrame GameRow) (row : GameRow) : DataFrame (list bool) :=
  (fun r => (r.1, [x r.2 =? x row; y r.2 =? y row; String.eqb (date r.2) (date row)])) <$> df.

(** [(df == row).all(1).any()] *)
Definition row_in_df (row : GameRow) (df : DataFrame GameRow) : bool :=
  existsb id (forallb id <$> (frame_eq df row).*2).

(** The empty Series of the source is [None]. *)
Definition keep_row_if_in_df {R : Type} (df : DataFrame GameRow)
    (row_original : R) (row_changed : GameRow) : option R :=
  if row_in_df row_changed df then Some row_original else None.

(** ** Participation classifier ([parsing.in_dfs_to_color])

    The team table has rows, or two player tables are given: on a table
    without rows pandas calls the row function on no row of the table,
    and with fewer than two player tables the code then fails at the
    column assignment, which is not modelled. *)

Definition classify_row (dfs_compare : list (DataFrame GameRow)) (row : GameRow)
    : result (bool * bool) :=
  d0 ← getitem dfs_compare 0;
  let in0 := row_in_df row d0 in
  d1 ← getitem dfs_compare 1;
  Ok (in0, row_in_df row d1).

Definition in_dfs_to_color (df : DataFrame GameRow)
    (dfs_compare : list (DataFrame GameRow)) (player_colors : list string)
    (both_color neutral_color neutral_ecolor : string)
    : result (DataFrame ColoredRow) :=
  c0 ← getitem player_colors 0;
  c1 ← getitem player_colors 1;
  let dict_colors (k : bool * bool) : string :=
    match k with
    | (false, false) => neutral_color
    | (true, false) => c0
    | (false, true) => c1
    | (true, true) => both_color
    end in
  keys ← mapM (fun r => classify_row dfs_compare r.2) df;
  let colors := dict_colors <$> keys in
  let ecolors :=
    (fun c => if negb (String.eqb c neutral_color) then c else neutral_ecolor) <$> colors in
  Ok (zip_with (fun r ce =>
        (r.1, {| c_x := Val (x r.2); c_y := Val (y r.2); c_date := Val (date r.2);
                 color := Val ce.1; ecolor := Val ce.2 |}))
      df (zip colors ecolors)).

(** ** Category splitter ([parsing.get_plotting_dfs]) *)

Definition get_plotting_dfs (df : DataFrame ColoredRow) (color_ neutral_color : string)
    : result (DataFrame ColoredRow * DataFrame ColoredRow) :=
  let color_criteria := Pd.column (fun r => Pd.cell_eq_str (color r) color_) df in
  let df_color_yes := Pd.select df color_criteria in
  let df_color_no := Pd.select df (Pd.invert color_criteria) in
  df_color_no ← Pd.setitem nan_row set_color df_color_no
                   (Pd.apply (fun _ => neutral_color) (Pd.column color df));
  df_color_no ← Pd.setitem nan_row set_ecolor df_color_no
                   (Pd.apply (fun _ => neutral_color) (Pd.column ecolor df));
  Ok (df_color_no, df_color_yes).

(** ** Numbers

    A win ratio is a Python [float] (a binary64 value) or the [int] [0] of
    the zero-row guard. *)

Inductive PyNum : Type :=
  | PyInt (z : Z)
  | PyFloat (f : float).

Module Num.

Definition Z2SF (z : Z) : spec_float :=
  match z with
  | Z0 => S754_zero false
  | Zpos p => S754_finite false p 0
  | Zneg p => S754_finite true p 0
  end.

(** The binary64 value nearest to [a / b], ties to even. *)
Definition div_nearest (a b : Z) : float :=
  SF2Prim (SFdiv prec emax (Z2SF a) (Z2SF b)).

(** [a / b] on two [int]s: true division, correctly rounded. *)
Definition truediv (a b : Z) : result float :=
  if b =? 0 then Raise ZeroDivisionError
  else
    let q := div_nearest a b in
    if PrimFloat.is_infinity q then Raise OverflowError else Ok q.

(** The integer nearest to [num / den], ties to even ([den] positive). *)
Definition round_half_even (num den : Z) : Z :=
  let q := num / den in
  let r := num mod den in
  match 2 * r ?= den with
  | Lt => q
  | Gt => q + 1
  | Eq => if Z.even q then q else q + 1
  end.

Definition signed_zero (s : bool) : float := if s then (-0)%float else 0%float.

(** [round(x, ndigits)] on a [float]: the exact value of [x] is rounded
    half-even to [ndigits] decimals and the decimal result is converted
    back to the nearest binary64 value.  Beyond 323 decimals every float
    is its own rounding, below -308 every float rounds to zero. *)
Definition round (x_ : float) (ndigits : Z) : result float :=
  match Prim2SF x_ with
  | S754_finite s m e =>
      if 323 <? ndigits then Ok x_
      else if ndigits <? -308 then Ok (signed_zero s)
      else
        let num := Zpos m * 2 ^ Z.max e 0 * 10 ^ Z.max ndigits 0 in
        let den := 2 ^ Z.max (- e) 0 * 10 ^ Z.max (- ndigits) 0 in
        let n := round_half_even num den in
        match n with
        | Z0 => Ok (signed_zero s)
        | _ =>
            let r := div_nearest ((if s then - n else n) * 10 ^ Z.max (- ndigits) 0)
                                 (10 ^ Z.max ndigits 0) in
            if PrimFloat.is_infinity r then Raise OverflowError else Ok r
        end
  | _ => Ok x_
  end.

(** The exact value of a number, for comparisons. *)
Inductive ext : Type :=
  | ENaN
  | ENegInf
  | EFin (q : Q)
  | EPosInf.

Definition float_val (f : float) : ext :=
  match Prim2SF f with
  | S754_zero _ => EFin 0
  | S754_infinity s => if s then ENegInf else EPosInf
  | S754_nan => ENaN
  | S754_finite s m e => EFin (inject_Z (if s then Zneg m else Zpos m) * 2 ^ e)%Q
  end.

Definition val (n : PyNum) : ext :=
  match n with
  | PyInt z => EFin (inject_Z z)
  | PyFloat f => float_val f
  end.

Definition ext_compare (a b : ext) : option comparison :=
  match a, b with
  | ENaN, _ | _, ENaN => None
  | ENegInf, ENegInf => Some Eq
  | ENegInf, _ => Some Lt
  | _, ENegInf => Some Gt
  | EPosInf, EPosInf => Some Eq
  | EPosInf, _ => Some Gt
  | _, EPosInf => Some Lt
  | EFin p, EFin q => Some (p ?= q)%Q
  end.

(** [a == b] and [a < b] on numbers: by exact value, a NaN compares false. *)
Definition eqb (a b : PyNum) : bool :=
  match ext_compare (val a) (val b) with
  | Some Eq => true
  | _ => false
  end.

Definition ltb (a b : PyNum) : bool :=
  match ext_compare (val a) (val b) with
  | Some Lt => true
  | _ => false
  end.

Definition is_nan (a : PyNum) : bool :=
  match val a with
  | ENaN => true
  | _ => false
  end.

End Num.

(** ** Aggregator ([utils.get_wins_percentage]) *)

(** [len(df)] *)
Definition len {A : Type} (l : list A) : Z := Z.of_nat (length l).

Definition get_wins_percentage {R : Type} `{XY R} (df : DataFrame R) (precision : Z)
    : result PyNum :=
  let attempt : result PyNum :=
    let wins := Pd.select df (Pd.column (fun r => Pd.cell_lt (col_x r) (col_y r)) df) in
    q ← Num.truediv (len wins) (len df);
    PyFloat <$> Num.round (q * 100)%float precision in
  match attempt with
  | Raise ZeroDivisionError => Ok (PyInt 0)
  | r => r
  end.

(** ** Joint sorter ([utils.sort_as_one]) *)

(** The comparisons [==] and [<] of Python values, as truth values; a
    comparison may raise. *)
Class PyOrd (A : Type) : Type :=
  { py_eq : A -> A -> result bool;
    py_lt : A -> A -> result bool }.

#[global] Instance PyNum_ord : PyOrd PyNum :=
  {| py_eq a b := Ok (Num.eqb a b); py_lt a b := Ok (Num.ltb a b) |}.

#[global] Instance str_ord : PyOrd string :=
  {| py_eq a b := Ok (String.eqb a b); py_lt a b := Ok (String.ltb a b) |}.

(** A pair of DataFrames, as [get_plotting_dfs] returns it.  Comparing two
    such tuples compares their first frames with [==]; that is either
    refused (frames with different labels) or yields a frame of booleans,
    which has no truth value: a [ValueError] both ways.  The pairs
    compared are different objects, as in [get_final_data], which builds
    a pair of its own for every colour (Python takes an object to be
    equal to itself without asking it). *)
#[global] Instance frames_ord {R : Type} : PyOrd (DataFrame R * DataFrame R) :=
  {| py_eq _ _ := Raise ValueError; py_lt _ _ := Raise ValueError |}.

(** Tuples compare by their first differing component: [==] is asked of
    the components in turn until two differ; [<] is then asked of those
    two. *)
Definition tuple4_eq {A B C D : Type} `{PyOrd A, PyOrd B, PyOrd C, PyOrd D}
    (v w : A * B * C * D) : result bool :=
  let '(a1, b1, c1, d1) := v in
  let '(a2, b2, c2, d2) := w in
  e ← py_eq a1 a2; if negb e then Ok false else
  e ← py_eq b1 b2; if negb e then Ok false else
  e ← py_eq c1 c2; if negb e then Ok false else
  e ← py_eq d1 d2; if negb e then Ok false else
  Ok true.

Definition tuple4_lt {A B C D : Type} `{PyOrd A, PyOrd B, PyOrd C, PyOrd D}
    (v w : A * B * C * D) : result bool :=
  let '(a1, b1, c1, d1) := v in
  let '(a2, b2, c2, d2) := w in
  e ← py_eq a1 a2; if negb e then py_lt a1 a2 else
  e ← py_eq b1 b2; if negb e then py_lt b1 b2 else
  e ← py_eq c1 c2; if negb e then py_lt c1 c2 else
  e ← py_eq d1 d2; if negb e then py_lt d1 d2 else
  Ok false.

#[global] Instance tuple4_ord {A B C D : Type} `{PyOrd A, PyOrd B, PyOrd C, PyOrd D}
    : PyOrd (A * B * C * D) :=
  {| py_eq := tuple4_eq; py_lt := tuple4_lt |}.

(** [list.sort]: a stable sort that only asks [pivot < element]; an
    exception raised by a comparison ends the sort.  Each element in turn
    is inserted into the sorted prefix, after the elements it is not
    smaller than.  (CPython finds the place by bisection and merges runs
    once a list has 64 elements; the four categories sorted here stay
    below that.)  The first question asked is whether the second element
    is smaller than the first.  The model is for elements whose
    comparisons form a strict total order or raise: there it returns what
    CPython's sort returns; with a key that compares false both ways,
    such as a NaN, the questions CPython asks are others. *)
Fixpoint insert {A : Type} `{PyOrd A} (pivot : A) (sorted_prefix : list A)
    : result (list A) :=
  match sorted_prefix with
  | [] => Ok [pivot]
  | p :: rest =>
      b ← py_lt pivot p;
      if b : bool then Ok (pivot :: p :: rest)
      else (p ::.) <$> insert pivot rest
  end.

Fixpoint sort_from {A : Type} `{PyOrd A} (sorted_prefix rest : list A)
    : result (list A) :=
  match rest with
  | [] => Ok sorted_prefix
  | pivot :: rest' =>
      s ← insert pivot sorted_prefix;
      sort_from s rest'
  end.

(** [sorted(l, reverse = flag)]: with the flag the list is reversed
    before and after the ascending sort. *)
Definition sorted {A : Type} `{PyOrd A} (l : list A) (flag : bool) : result (list A) :=
  if flag then reverse <$> sort_from [] (reverse l)
  else sort_from [] l.

(** [zip(a, b, c, d)] *)
Definition zip4 {A B C D : Type} (a : list A) (b : list B) (c : list C) (d : list D)
    : list (A * B * C * D) :=
  zip (zip (zip a b) c) d.

(** [zip( *rows )]: four columns, or nothing at all when there is no row. *)
Definition unzip4 {A B C D : Type} (rows : list (A * B * C * D))
    : option (list A * list B * list C * list D) :=
  match rows with
  | [] => None
  | _ => Some ((fun r => r.1.1.1) <$> rows, (fun r => r.1.1.2) <$> rows,
               (fun r => r.1.2) <$> rows, (fun r => r.2) <$> rows)
  end.

(** [sort_as_one] with the four sequences of its one call site. *)
Definition sort_as_one {A B C D : Type} `{PyOrd A, PyOrd B, PyOrd C, PyOrd D}
    (a : list A) (b : list B) (c : list C) (d : list D) (flag : bool)
    : result (option (list A * list B * list C * list D)) :=
  unzip4 <$> sorted (zip4 a b c d) flag.

(** ** Final data ([parsing.get_final_data]) *)

Definition get_final_data (df : DataFrame ColoredRow) (colors : list string)
    (neutral_color : string) (player_names : list string)
    : result (option (list PyNum * list (DataFrame ColoredRow * DataFrame ColoredRow)
                      * list string * list string)) :=
  df_tuples ← mapM (fun color_ => get_plotting_dfs df color_ neutral_color) colors;
  percentages ← mapM (fun color_ =>
      get_wins_percentage
        (Pd.select df (Pd.column (fun r => Pd.cell_eq_str (color r) color_) df)) 2) colors;
  n0 ← getitem player_names 0;
  n1 ← getitem player_names 1;
  let text_ends := ["with " +:+ n0 +:+ " and no " +:+ n1;
                    "with " +:+ n1 +:+ " and no " +:+ n0;
                    "with both " +:+ n0 +:+ " and " +:+ n1;
                    "with neither " +:+ n0 +:+ " and " +:+ n1] in
  sort_as_one percentages df_tuples colors text_ends true.

(** ** The rest of [utils.py] *)

(** The argument of [has_special_chars] is a team code or a number (a
    player, a year); [str()] of it is what the pattern is matched on. *)
Inductive StrOrInt : Type :=
  | AStr (s : string)
  | AnInt (n : Z).

Definition py_str (o : StrOrInt) : string :=
  match o with
  | AStr s => s
  | AnInt n => Str.str_of_int n
  end.

Module Re.

Definition is_alnum (c : ascii) : bool :=
  let n := N_of_ascii c in
  (((48 <=? n) && (n <=? 57)) || ((65 <=? n) && (n <=? 90))
   || ((97 <=? n) && (n <=? 122)))%N.

(** [bool(re.match('^[a-zA-Z0-9]*$', s))]: the star takes every leading
    letter and digit; [$] then holds at the end of the text, or before a
    newline that ends the text. *)
Fixpoint match_alnum (s : string) : bool :=
  match s with
  | EmptyString => true
  | String c s' =>
      if is_alnum c then match_alnum s'
      else Ascii.eqb c "010" && String.eqb s' EmptyString
  end.

End Re.

Definition has_special_chars (string_ : StrOrInt) : bool :=
  negb (Re.match_alnum (py_str string_)).

(** [range(start, stop, step)] *)
Definition py_range (start stop step : Z) : result (list Z) :=
  if step =? 0 then Raise ValueError
  else
    let n :=
      if 0 <? step then (if start <? stop then (stop - start - 1) / step + 1 else 0)
      else (if stop <? start then (start - stop - 1) / (- step) + 1 else 0) in
    Ok ((fun k => start + Z.of_nat k * step) <$> seq 0 (Z.to_nat n)).

(** [l[i:j]]: an index below zero counts from the end, and both ends are
    cut to the list. *)
Definition slice_index (n i : Z) : Z :=
  if i <? 0 then Z.max (i + n) 0 else Z.min i n.

Definition py_slice {A : Type} (l : list A) (i j : Z) : list A :=
  let a := slice_index (Z.of_nat (length l)) i in
  let b := slice_index (Z.of_nat (length l)) j in
  take (Z.to_nat (b - a)) (drop (Z.to_nat a) l).

Definition split_list {A : Type} (list_ : list A) (length_ : Z) : result (list (list A)) :=
  match py_range 0 (Z.of_nat (length list_)) length_ with
  | Ok starts => Ok ((fun i => py_slice list_ i (i + length_)) <$> starts)
  | Raise e => Raise e
  end.

(** [[j for i in list_ for j in i]] *)
Definition flatten_list {A : Type} (list_ : list (list A)) : list A :=
  i ← list_; j ← i; [j].

Definition years_to_list (years : string) : list Z :=
  Str.int_of_digits <$> Str.findall_digits years.

Definition codes : gmap string string :=
  list_to_map
    [("atl", "Hawks"); ("bkn", "Nets"); ("bos", "Celtics"); ("cha", "Hornets");
     ("chi", "Bulls"); ("cle", "Cavaliers"); ("dal", "Mavericks"); ("den", "Nuggets");
     ("det", "Pistons"); ("gsw", "Warriors"); ("hou", "Rockets"); ("ind", "Pacers");
     ("lac", "Clippers"); ("lal", "Lakers"); ("mem", "Grizzies"); ("mia", "Heat");
     ("mil", "Bucks"); ("min", "Timberwolves"); ("nop", "Pelicans"); ("nyk", "Knicks");
     ("okc", "Thunder"); ("orl", "Magic"); ("phi", "76ers"); ("phx", "Suns");
     ("por", "Blazers"); ("sac", "Kings"); ("sas", "Spurs"); ("tor", "Raptors");
     ("uta", "Jazz"); ("wsh", "Wizards")].

Definition code_to_team_name (code : string) : result string :=
  match codes !! code with
  | Some name => Ok name
  | None => Raise KeyError
  end.

(** ** Argument checks ([docs.check_if_type], [docs.check_function_args])

    What [pydoc.locate] finds under a name and what [isinstance] answers
    belong to the interpreter and the modules loaded; the checks are
    written over both.  [locate] gives back any object, not only a
    class, and [isinstance] raises on what is not one. *)

Inductive TypeSpec : Type :=
  | OneType (name : string)
  | AnyOf (names : list string).

Section Docs.
Context {Obj Cls : Type} (locate : string -> option Cls)
  (isinstance : Obj -> Cls -> result bool).

(** [if pydoc.locate(i) is None: raise ValueError(...)] *)
Definition located (i : string) : result Cls :=
  match locate i with
  | None => Raise ValueError
  | Some cls => Ok cls
  end.

(** With a list of names every name is located before the object is
    looked at, and [any([...])] asks [isinstance] of every class. *)
Definition check_if_type (object_ : Obj) (type_ : TypeSpec) : result unit :=
  match type_ with
  | OneType name =>
      match located name with
      | Ok cls =>
          match isinstance object_ cls with
          | Ok b => if b : bool then Ok tt else Raise TypeError
          | Raise e => Raise e
          end
      | Raise e => Raise e
      end
  | AnyOf names =>
      match mapM located names with
      | Ok classes =>
          match mapM (isinstance object_) classes with
          | Ok answers => if existsb id answers then Ok tt else Raise TypeError
          | Raise e => Raise e
          end
      | Raise e => Raise e
      end
  end.

(** [for value, type_, arg in zip(values, types, arguments): ...]; the
    name of the argument only goes into the message. *)
Fixpoint check_function_args (values : list Obj) (arguments : list string)
    (types : list TypeSpec) : result unit :=
  match values, types, arguments with
  | value :: values', type_ :: types', _ :: arguments' =>
      _ ← check_if_type value type_;
      check_function_args values' arguments' types'
  | _, _, _ => Ok tt
  end.

End Docs.

(** ** The callers in [visualizing.py] *)

(** [draw_final_plot] picks the pair of tables to draw:
    [[i for i, j in zip(df_tuples, colors) if j == keep_color][0]]. *)
Definition draw_final_plot_df_tuple {T : Type} (df_tuples : list T) (colors : list string)
    (keep_color : string) : result T :=
  getitem ((fun ij => ij.1) <$> filter (fun ij : T * string => ij.2 = keep_color)
                                   (zip df_tuples colors)) 0.

(** The seasons [draw_gif] asks [get_comparative_stats] for, in the order
    of the requests, when every request succeeds: one season for a text
    with one number, the range between the first two numbers otherwise;
    [pd.concat] of no season at all raises. *)
Definition draw_gif_seasons (years : string) : result (list Z) :=
  let years := years_to_list years in
  if bool_decide (length years = 1%nat) then
    y ← getitem years 0; Ok [y]
  else
    y0 ← getitem years 0;
    y1 ← getitem years 1;
    match py_range y0 (y1 + 1) 1 with
    | Ok [] => Raise ValueError
    | r => r
    end.

(** * Vocabulary of the properties

    The notions the specification speaks with, said without the code:
    the digit runs of a label, the participation categories, the rows of
    one colour, the comparison by ratio, and the plain insertion sort the
    joint sorter is measured against. *)

(** A text without a digit. *)
Definition no_digit (s : string) : Prop :=
  Str.all (fun c => negb (Str.is_digit c)) s = true.

(** The runs of digits of a text

    What the specification calls the decimal-digit runs of a label, said
    without the scanner: the text is cut into stretches without a digit
    and non-empty stretches of digits, each run ending where the text
    ends or a non-digit follows. *)

Definition run_ends (post : string) : Prop :=
  match post with
  | EmptyString => True
  | String c _ => Str.is_digit c = false
  end.

Inductive digit_runs : string -> list string -> Prop :=
  | runs_none (s : string) :
      no_digit s -> digit_runs s []
  | runs_next (pre run post : string) (rs : list string) :
      no_digit pre ->
      run <> EmptyString -> Str.all Str.is_digit run = true ->
      run_ends post ->
      digit_runs post rs ->
      digit_runs (pre +:+ run +:+ post) (run :: rs).

(** The first two of the runs of a label as integers, as written when
    the label has a [W], swapped otherwise. *)
Definition oriented (score : string) (runs : list string) : list Z :=
  let numbers := take 2 (Str.int_of_digits <$> runs) in
  if Str.contains "W" score then numbers else reverse numbers.

(** The first number of a label is outside 1..12. *)
Definition month_out_of_range (date : string) : Prop :=
  exists run rest,
    Str.findall_digits date = run :: rest /\ ~ (1 <= Str.int_of_digits run <= 12).

(** The four categories of the specification and their lookup. *)
Inductive ParticipationCategory : Type :=
  | Neither | Player1Only | Player2Only | Both.

Definition category_of (inP1 inP2 : bool) : ParticipationCategory :=
  match inP1, inP2 with
  | false, false => Neither
  | true, false => Player1Only
  | false, true => Player2Only
  | true, true => Both
  end.

(** A category applies to a row when the two membership tests come out as
    its line of the table says. *)
Definition applies (c : ParticipationCategory) (r : GameRow)
    (P1 P2 : DataFrame GameRow) : Prop :=
  match c with
  | Neither => row_in_df r P1 = false /\ row_in_df r P2 = false
  | Player1Only => row_in_df r P1 = true /\ row_in_df r P2 = false
  | Player2Only => row_in_df r P1 = false /\ row_in_df r P2 = true
  | Both => row_in_df r P1 = true /\ row_in_df r P2 = true
  end.

Definition category_color (c : ParticipationCategory)
    (player_colors : string * string) (both_color neutral_color : string) : string :=
  match c with
  | Neither => neutral_color
  | Player1Only => player_colors.1
  | Player2Only => player_colors.2
  | Both => both_color
  end.

(** The classifier, row by row: the frame it returns is the team table
    with the two colour columns computed from the membership tests. *)
Definition colored (P1 P2 : DataFrame GameRow) (c0 c1 both_color neutral_color
    neutral_ecolor : string) (r : label * GameRow) : label * ColoredRow :=
  let c := category_color (category_of (row_in_df r.2 P1) (row_in_df r.2 P2))
             (c0, c1) both_color neutral_color in
  (r.1, {| c_x := Val (x r.2); c_y := Val (y r.2); c_date := Val (date r.2);
           color := Val c;
           ecolor := Val (if String.eqb c neutral_color then neutral_ecolor else c) |}).












(** The rows of a classified table whose colour is, or is not, the
    requested one. *)
Definition has_color (c : string) (r : label * ColoredRow) : Prop := color r.2 = Val c.

#[global] Instance cell_eq_dec {A : Type} `{EqDecision A} : EqDecision (cell A).
Proof. solve_decision. Defined.

#[global] Instance has_color_dec c r : Decision (has_color c r).
Proof. unfold has_color. apply _. Defined.

(** A row greyed out: both colour fields overwritten. *)
Definition greyed (neutral_color : string) (r : label * ColoredRow) : label * ColoredRow :=
  (r.1, set_ecolor (Val neutral_color) (set_color (Val neutral_color) r.2)).

(** A row of missing values under a label, with both colour fields set. *)
Definition phantom (neutral_color : string) (r : label * ColoredRow) : label * ColoredRow :=
  (r.1, set_ecolor (Val neutral_color) (set_color (Val neutral_color) nan_row)).

(** The insertion sort by a comparison [lt] that always answers. *)
Section PureSort.
Context {A : Type} `{PyOrd A} (lt : A -> A -> bool).

Fixpoint insert_pure (pivot : A) (l : list A) : list A :=
  match l with
  | [] => [pivot]
  | p :: rest => if lt pivot p then pivot :: p :: rest else p :: insert_pure pivot rest
  end.

Fixpoint sort_pure (sorted_prefix rest : list A) : list A :=
  match rest with
  | [] => sorted_prefix
  | pivot :: rest' => sort_pure (insert_pure pivot sorted_prefix) rest'
  end.

(** Every comparison the sort can ask about two different elements of
    the list answers [lt]. *)
Definition answers (l : list A) : Prop :=
  forall a b, a ∈ l -> b ∈ l -> a <> b -> py_lt a b = Ok (lt a b).

(** Sortedness by [lt], and a list any two different elements of which
    [lt] tells apart. *)
Definition before (a b : A) : Prop := lt a b = true.

Definition decides (l : list A) : Prop :=
  forall a b, a ∈ l -> b ∈ l -> a <> b -> lt a b = false -> lt b a = true.

End PureSort.

(** One category: its ratio, its pair of tables, its colour, its label. *)
Abbreviation Category :=
  (PyNum * (DataFrame ColoredRow * DataFrame ColoredRow) * string * string)%type
  (only parsing).

Definition ratio_of (v : Category) : PyNum := v.1.1.1.

(** Rows compared by their ratios only. *)
Definition by_ratio (v w : Category) : bool := Num.ltb (ratio_of v) (ratio_of w).

(** No two numbers of the list are equal ([==]), none is a NaN. *)
Fixpoint all_distinct (ks : list PyNum) : bool :=
  match ks with
  | [] => true
  | k :: ks' => forallb (fun k' => negb (Num.eqb k k')) ks' && all_distinct ks'
  end.

Definition no_nan (ks : list PyNum) : bool := forallb (fun k => negb (Num.is_nan k)) ks.

(** A game of a classified table. *)
Definition game (l : Z) (x_ y_ : Z) (c : string) : label * ColoredRow :=
  (l, {| c_x := Val x_; c_y := Val y_; c_date := Val "Sun, Jun 5";
         color := Val c; ecolor := Val c |}).

(** A season of five games: one with the first player only (lost), two
    with the second only (one won), one with both (won), one with
    neither (won). *)
Definition tied_season : DataFrame ColoredRow :=
  [game 0 100 90 "#EF798A"; game 1 80 95 "#68C5DB"; game 2 101 99 "#68C5DB";
   game 3 90 104 "#ABA2E9"; game 4 88 97 "#666666"].

Definition four_colors : list string := ["#EF798A"; "#68C5DB"; "#ABA2E9"; "#666666"].

(** A season of seven games with four different ratios: 0 of 1, 2 of 3,
    1 of 1 and 1 of 2 games won. *)
Definition mixed_season : DataFrame ColoredRow :=
  [game 0 100 90 "#EF798A"; game 1 80 95 "#68C5DB"; game 2 101 99 "#68C5DB";
   game 3 90 104 "#ABA2E9"; game 4 88 97 "#666666"; game 5 99 110 "#68C5DB";
   game 6 120 118 "#666666"].

(** The value of a sequence of decimal digits read after [acc]. *)
Fixpoint uval (d : Decimal.uint) (acc : Z) : Z :=
  match d with
  | Decimal.Nil => acc
  | Decimal.D0 d => uval d (10 * acc)
  | Decimal.D1 d => uval d (10 * acc + 1)
  | Decimal.D2 d => uval d (10 * acc + 2)
  | Decimal.D3 d => uval d (10 * acc + 3)
  | Decimal.D4 d => uval d (10 * acc + 4)
  | Decimal.D5 d => uval d (10 * acc + 5)
  | Decimal.D6 d => uval d (10 * acc + 6)
  | Decimal.D7 d => uval d (10 * acc + 7)
  | Decimal.D8 d => uval d (10 * acc + 8)
  | Decimal.D9 d => uval d (10 * acc + 9)
  end.

(** * Properties *)

(** ** Strings *)

Module StrFacts.
Import Str.

Lemma all_true p s :
  all p s = true <-> forall c, contains c s = true -> p c = true.
Proof.
  induction s as [|d s IH]; simpl.
  - split; [discriminate | reflexivity].
  - rewrite andb_true_iff, IH. split.
    + intros [Hd Hs] c. destruct (Ascii.eqb_spec c d) as [->|_]; auto.
    + intros Hall. split.
      * apply Hall. now rewrite Ascii.eqb_refl.
      * intros c Hc. apply Hall. rewrite Hc. now destruct (Ascii.eqb c d).
Qed.

Lemma all_false p s :
  all p s = false <-> exists c, contains c s = true /\ p c = false.
Proof.
  induction s as [|d s IH]; simpl.
  - split; [discriminate | intros (c & Hc & _); discriminate].
  - rewrite andb_false_iff, IH. split.
    + intros [Hd | (c & Hc & Hp)].
      * exists d. now rewrite Ascii.eqb_refl.
      * exists c. rewrite Hc. now destruct (Ascii.eqb c d).
    + intros (c & Hc & Hp). destruct (Ascii.eqb c d) eqn:E.
      * apply Ascii.eqb_eq in E. subst c. now left.
      * right. eauto.
Qed.

End StrFacts.

(** ** Coordinate normalizer *)

(** *** The scanner and [replace] on a text read in pieces *)

Module TextFacts.
Import Str.

Lemma flush_nil cur : flush cur = [] <-> cur = EmptyString.
Proof. destruct cur; simpl; split; intros E; try reflexivity; discriminate E. Qed.

Lemma app_empty_l_inv (a b : string) : a +:+ b = EmptyString -> a = EmptyString.
Proof. destruct a; simpl; intros E; [reflexivity | discriminate E]. Qed.

(** No run is found exactly when no run is open and no digit follows. *)
Lemma findall_from_nil s : forall cur,
  findall_from cur s = [] <-> cur = EmptyString /\ no_digit s.
Proof.
  unfold no_digit.
  induction s as [|c s IH]; intros cur; simpl.
  - rewrite flush_nil. tauto.
  - destruct (is_digit c); simpl.
    + rewrite IH. split.
      * intros [H _]. destruct cur; discriminate H.
      * intros [_ H]. discriminate.
    + split.
      * intros H. apply app_eq_nil in H as [H1 H2].
        apply flush_nil in H1. apply IH in H2. tauto.
      * intros [-> H]. simpl. apply IH. auto.
Qed.

Lemma findall_digits_nil s : findall_digits s = [] <-> no_digit s.
Proof. unfold findall_digits. rewrite findall_from_nil. tauto. Qed.

Lemma findall_skip w s :
  no_digit w -> findall_from EmptyString (w +:+ s) = findall_from EmptyString s.
Proof.
  unfold no_digit. induction w as [|c w IH]; simpl; [reflexivity|].
  intros H. apply andb_true_iff in H as [Hc Hw].
  destruct (is_digit c); [discriminate|]. simpl. auto.
Qed.

Lemma append_assoc (a b c : string) : (a +:+ b) +:+ c = a +:+ (b +:+ c).
Proof. induction a; simpl; congruence. Qed.

Lemma findall_run run : forall cur s,
  all is_digit run = true ->
  findall_from cur (run +:+ s) = findall_from (cur +:+ run) s.
Proof.
  induction run as [|c run IH]; intros cur s; simpl.
  - intros _. f_equal. induction cur; simpl; congruence.
  - intros H. apply andb_true_iff in H as [Hc Hr]. rewrite Hc.
    rewrite IH by exact Hr. now rewrite append_assoc.
Qed.

(** The first run of [w ^ sep ^ run ^ sep' ^ ...], where [w] and the two
    separators hold no digit, is [run]. *)
Lemma findall_first_run w c1 run c2 s :
  no_digit w -> is_digit c1 = false -> is_digit c2 = false ->
  all is_digit run = true -> run <> EmptyString ->
  exists rest,
    findall_digits (w +:+ String c1 (run +:+ String c2 s)) = run :: rest.
Proof.
  intros Hw H1 H2 Hr Hne. unfold findall_digits.
  rewrite findall_skip by exact Hw. simpl. rewrite H1. simpl.
  rewrite findall_run by exact Hr. simpl. rewrite H2.
  destruct run; [congruence|]. simpl. eauto.
Qed.

Lemma prefix_app (a b : string) : String.prefix a (a +:+ b) = true.
Proof.
  induction a as [|c a IH]; simpl; [now destruct b|].
  destruct (ascii_dec c c); [exact IH | congruence].
Qed.

Lemma replace_zero old new s : replace_from old new (Some 0%nat) 0 s = s.
Proof. induction s; simpl; congruence. Qed.

Lemma replace_pass old new count w : forall s,
  replace_from old new count (String.length w) (w +:+ s) = replace_from old new count 0 s.
Proof. induction w as [|c w IH]; intros s; simpl; [reflexivity | apply IH]. Qed.

(** Text that does not hold the first character of [old] is copied. *)
Lemma replace_skip o old new count w s :
  contains o w = false ->
  replace_from (String o old) new count 0 (w +:+ s) =
  w +:+ replace_from (String o old) new count 0 s.
Proof.
  induction w as [|c w IH]; [reflexivity|].
  intros H. simpl in H. destruct (Ascii.eqb o c) eqn:E; [discriminate|].
  apply Ascii.eqb_neq in E.
  change (replace_from (String o old) new count 0 (String c w +:+ s))
    with (if match count with Some O => false | _ => true end
             && String.prefix (String o old) (String c (w +:+ s))
          then new +:+ replace_from (String o old) new (pred <$> count)
                          (String.length (String o old) - 1) (w +:+ s)
          else String c (replace_from (String o old) new count 0 (w +:+ s))).
  replace (String.prefix (String o old) (String c (w +:+ s))) with false
    by (simpl; destruct (ascii_dec o c); congruence).
  rewrite andb_false_r. simpl. f_equal. auto.
Qed.

Lemma replace_absent o old new count s :
  contains o s = false -> replace_from (String o old) new count 0 s = s.
Proof.
  intros H. generalize (replace_skip o old new count s EmptyString H).
  assert (E : forall t : string, t +:+ EmptyString = t)
    by (induction t; simpl; congruence).
  now rewrite !E.
Qed.

(** An occurrence at the head is replaced, if the count allows one. *)
Lemma replace_here o old new count s :
  count <> Some 0%nat ->
  replace_from (String o old) new count 0 (String o old +:+ s) =
  new +:+ replace_from (String o old) new (pred <$> count) 0 s.
Proof.
  intros Hc.
  change (replace_from (String o old) new count 0 (String o old +:+ s))
    with (if match count with Some O => false | _ => true end
             && String.prefix (String o old) (String o old +:+ s)
          then new +:+ replace_from (String o old) new (pred <$> count)
                          (String.length (String o old) - 1) (old +:+ s)
          else String o (replace_from (String o old) new count 0 (old +:+ s))).
  rewrite prefix_app.
  replace (String.length (String o old) - 1)%nat with (String.length old)
    by (simpl; lia).
  rewrite replace_pass.
  destruct count as [[|n]|]; [congruence | reflexivity | reflexivity].
Qed.

End TextFacts.

(** *** The runs of digits *)

Lemma append_empty_r (s : string) : s +:+ EmptyString = s.
Proof. induction s; simpl; congruence. Qed.

Lemma digit_runs_skip c s rs :
  Str.is_digit c = false -> digit_runs s rs -> digit_runs (String c s) rs.
Proof.
  intros Hc Hs. destruct Hs as [s Hs | pre run post rs Hpre Hne Hrun Hend Hpost].
  - constructor. unfold no_digit in *. simpl. now rewrite Hc.
  - change (String c (pre +:+ run +:+ post)) with (String c pre +:+ run +:+ post).
    constructor; auto. unfold no_digit in *. simpl. now rewrite Hc.
Qed.

Lemma all_digit_snoc cur c :
  Str.all Str.is_digit cur = true -> Str.is_digit c = true ->
  Str.all Str.is_digit (cur +:+ String c EmptyString) = true.
Proof.
  induction cur as [|d cur IH]; simpl; intros Hcur Hc.
  - now rewrite Hc.
  - apply andb_true_iff in Hcur as [Hd Hcur]. rewrite Hd. simpl. auto.
Qed.

(** The scanner cuts the text it has read and the text ahead into runs. *)
Lemma findall_from_runs s : forall cur,
  Str.all Str.is_digit cur = true ->
  digit_runs (cur +:+ s) (Str.findall_from cur s).
Proof.
  induction s as [|c s IH]; intros cur Hcur; simpl.
  - rewrite append_empty_r. destruct cur as [|d cur]; simpl.
    + now constructor.
    + assert (Hr : digit_runs (EmptyString +:+ String d cur +:+ EmptyString)
                              [String d cur]).
      { apply runs_next;
          [reflexivity | discriminate | exact Hcur | exact I | now constructor]. }
      simpl in Hr. now rewrite append_empty_r in Hr.
  - destruct (Str.is_digit c) eqn:Hc.
    + replace (cur +:+ String c s) with ((cur +:+ String c EmptyString) +:+ s)
        by now rewrite TextFacts.append_assoc.
      apply IH. now apply all_digit_snoc.
    + specialize (IH EmptyString eq_refl). simpl in IH.
      apply (digit_runs_skip c) in IH; [|exact Hc].
      destruct cur as [|d cur]; simpl; [exact IH|].
      apply (runs_next EmptyString (String d cur) (String c s));
        [reflexivity | discriminate | exact Hcur | exact Hc | exact IH].
Qed.

(** The runs of a text are what [re.findall] returns, and nothing else
    cuts the text that way. *)
Lemma findall_digits_runs s rs : digit_runs s rs <-> rs = Str.findall_digits s.
Proof.
  split.
  - induction 1 as [s Hs | pre run post rs Hpre Hne Hrun Hend Hpost IH].
    + symmetry. now apply TextFacts.findall_digits_nil.
    + unfold Str.findall_digits in *.
      rewrite TextFacts.findall_skip by exact Hpre.
      rewrite TextFacts.findall_run by exact Hrun. simpl.
      destruct post as [|c post]; simpl.
      * destruct run; [congruence|]. simpl. f_equal. exact IH.
      * simpl in Hend. rewrite Hend. destruct run; [congruence|]. simpl. f_equal.
        rewrite IH. simpl. now rewrite Hend.
  - intros ->. apply (findall_from_runs s EmptyString). reflexivity.
Qed.

(** *** Scores *)

(** C2: [score_to_tuple] returns [None] exactly when the label has a
    character outside the alphabet (digits, W, L, O, T, hyphen, space);
    otherwise it returns the first two digit runs as integers, in label
    order when the label contains 'W' and reversed otherwise; the three
    labels of the specification evaluate as stated. *)
Theorem score_to_tuple_spec :
  (forall score,
      score_to_tuple score = None <->
      exists c, Str.contains c score = true /\ Str.contains c score_alphabet = false) /\
  (forall score runs,
      (forall c, Str.contains c score = true -> Str.contains c score_alphabet = true) ->
      digit_runs score runs ->
      score_to_tuple score = Some (oriented score runs)) /\
  score_to_tuple "W131-118" = Some [131; 118] /\
  score_to_tuple "L112-109" = Some [109; 112] /\
  score_to_tuple "garbage!!" = None.
Proof.
  split; [|split; [|repeat split; reflexivity]].
  - intros score. rewrite <- StrFacts.all_false. unfold score_to_tuple.
    destruct (Str.all _ score); simpl.
    + split; [|discriminate]. now destruct (Str.contains "W" score).
    + tauto.
  - intros score runs Hall Hruns. apply StrFacts.all_true in Hall.
    apply findall_digits_runs in Hruns. subst runs.
    unfold score_to_tuple, oriented. rewrite Hall. simpl.
    now destruct (Str.contains "W" score).
Qed.

Lemma score_to_tuple_spec_witness :
  digit_runs "W123-120 OT" ["123"; "120"] /\
  score_to_tuple "W123-120 OT" = Some [123; 120].
Proof.
  assert (Hruns : digit_runs "W123-120 OT" ["123"; "120"]).
  { apply (runs_next "W" "123" "-120 OT"); try reflexivity; [discriminate|].
    apply (runs_next "-" "120" " OT"); try reflexivity; [discriminate|].
    now constructor. }
  split; [exact Hruns|].
  apply (proj1 (proj2 score_to_tuple_spec) "W123-120 OT" ["123"; "120"]);
    [|exact Hruns].
  apply StrFacts.all_true. reflexivity.
Defined.

(** The label ["W100-120"] is accepted and keeps its runs as written, so
    the first element is the smaller one; and for ["L112-109"] the first
    element is the losing score: the pair is not winner-first. *)
Lemma score_to_tuple_not_winner_first :
  ~ (forall score a b,
        Str.contains "W" score = true ->
        score_to_tuple score = Some [a; b] -> b <= a) /\
  ~ (forall score a b, score_to_tuple score = Some [a; b] -> b <= a).
Proof.
  split.
  - intros H. specialize (H "W100-120" 100 120 eq_refl eq_refl). lia.
  - intros H. specialize (H "L112-109" 109 112 eq_refl). lia.
Qed.

(** C1 (amended): a two-element result holds the label's first two digit
    runs, in label order when the label contains 'W' and swapped
    otherwise; hence, when the label writes the larger score first, the
    first element is at least the second for a label with 'W' and at most
    the second for a label without. *)
Theorem score_to_tuple_orientation score a b :
  score_to_tuple score = Some [a; b] ->
  exists run1 run2 rest,
    digit_runs score (run1 :: run2 :: rest) /\
    let n1 := Str.int_of_digits run1 in
    let n2 := Str.int_of_digits run2 in
    (if Str.contains "W" score then a = n1 /\ b = n2 else a = n2 /\ b = n1) /\
    (n2 <= n1 -> if Str.contains "W" score then b <= a else a <= b).
Proof.
  intros H.
  pose proof (proj2 (findall_digits_runs score _) eq_refl) as Hruns.
  unfold score_to_tuple in H.
  destruct (negb _); [discriminate|].
  destruct (Str.findall_digits score) as [|run1 [|run2 rest]];
    destruct (Str.contains "W" score); simpl in H; try discriminate.
  - injection H as <- <-. exists run1, run2, rest. repeat split; auto.
  - injection H as <- <-. exists run1, run2, rest. repeat split; auto.
Qed.

Lemma score_to_tuple_orientation_witness :
  exists run1 run2 rest,
    digit_runs "L112-109" (run1 :: run2 :: rest) /\
    let n1 := Str.int_of_digits run1 in
    let n2 := Str.int_of_digits run2 in
    (if Str.contains "W" "L112-109" then 109 = n1 /\ 112 = n2 else 109 = n2 /\ 112 = n1) /\
    (n2 <= n1 -> if Str.contains "W" "L112-109" then 112 <= 109 else 109 <= 112).
Proof.
  apply (score_to_tuple_orientation "L112-109" 109 112). reflexivity.
Defined.

(** *** The month table *)

Lemma number_to_month_keys : (imap (fun i j => (Z.of_nat i + 1, ", " +:+ j +:+ " ")) months).*1
                             = [1; 2; 3; 4; 5; 6; 7; 8; 9; 10; 11; 12].
Proof. reflexivity. Qed.

Lemma number_to_month_None m : ~ (1 <= m <= 12) -> number_to_month !! m = None.
Proof.
  intros Hm. unfold number_to_month. apply not_elem_of_list_to_map_1.
  rewrite number_to_month_keys. rewrite !elem_of_cons, elem_of_nil. lia.
Qed.

(** What the conversion needs to know about a month in range: the text
    [f"{m}"] is a run of digits that reads back as [m], and the table
    holds the month's name between a comma and a space. *)
Lemma month_in_range m :
  1 <= m <= 12 ->
  exists r0 r' name,
    Str.str_of_int m = String r0 r' /\
    Str.is_digit r0 = true /\ Str.all Str.is_digit r' = true /\
    Str.int_of_digits (String r0 r') = m /\
    months !! Z.to_nat (m - 1) = Some name /\
    number_to_month !! m = Some (", " +:+ name +:+ " ") /\
    Str.contains "/" (", " +:+ name +:+ " ") = false /\
    String.length name = 3%nat.
Proof.
  intros Hm.
  assert (Hcases : m = 1 \/ m = 2 \/ m = 3 \/ m = 4 \/ m = 5 \/ m = 6 \/ m = 7 \/
                   m = 8 \/ m = 9 \/ m = 10 \/ m = 11 \/ m = 12) by lia.
  repeat (destruct Hcases as [-> | Hcases]); [.. | subst m];
    eexists _, _, _; (split; [vm_compute; reflexivity|]);
    repeat split; vm_compute; reflexivity.
Qed.

Lemma number_to_month_is_Some m : is_Some (number_to_month !! m) <-> 1 <= m <= 12.
Proof.
  split.
  - intros [v Hv]. destruct (decide (1 <= m <= 12)) as [H|H]; [exact H|].
    rewrite number_to_month_None in Hv by exact H. discriminate.
  - intros H. destruct (month_in_range m H) as (? & ? & ? & _ & _ & _ & _ & _ & E & _ & _).
    rewrite E. eauto.
Qed.

(** The three replacements of [date_convert] on a label read as weekday,
    space, run, slash, day. *)
Lemma replace_chain weekday r0 r' lab day :
  no_digit weekday ->
  Str.contains " " weekday = false -> Str.contains "/" weekday = false ->
  Str.contains "/" day = false ->
  Str.is_digit r0 = true ->
  Str.contains "/" lab = false ->
  Str.replace "/" EmptyString None
    (Str.replace " " EmptyString (Some 1%nat)
       (Str.replace (String r0 r') lab (Some 1%nat)
          (weekday +:+ " " +:+ String r0 r' +:+ "/" +:+ day)))
  = weekday +:+ lab +:+ day.
Proof.
  intros Hw Hsp Hsl Hday Hr0 Hlab. unfold Str.replace.
  assert (Hw0 : Str.contains r0 weekday = false).
  { destruct (Str.contains r0 weekday) eqn:E; [|reflexivity].
    apply (proj1 (StrFacts.all_true _ _) Hw) in E. now rewrite Hr0 in E. }
  assert (Hr0sp : Str.contains r0 " " = false).
  { simpl. destruct (Ascii.eqb r0 " ") eqn:E; [|reflexivity].
    apply Ascii.eqb_eq in E. now subst r0. }
  (* the month *)
  rewrite TextFacts.replace_skip by exact Hw0.
  change (" " +:+ String r0 r' +:+ "/" +:+ day)
    with (" " +:+ (String r0 r' +:+ "/" +:+ day)).
  rewrite (TextFacts.replace_skip r0 r' lab (Some 1%nat) " ") by exact Hr0sp.
  rewrite TextFacts.replace_here by discriminate.
  simpl (pred <$> Some 1%nat). rewrite TextFacts.replace_zero.
  (* the first space *)
  rewrite (TextFacts.replace_skip " " EmptyString EmptyString (Some 1%nat) weekday) by exact Hsp.
  rewrite (TextFacts.replace_here " " EmptyString EmptyString (Some 1%nat)) by discriminate.
  simpl (pred <$> Some 1%nat). rewrite TextFacts.replace_zero.
  change (EmptyString +:+ lab +:+ "/" +:+ day) with (lab +:+ "/" +:+ day).
  (* every slash *)
  rewrite (TextFacts.replace_skip "/" EmptyString EmptyString None weekday) by exact Hsl.
  rewrite (TextFacts.replace_skip "/" EmptyString EmptyString None lab) by exact Hlab.
  rewrite (TextFacts.replace_here "/" EmptyString EmptyString None day) by discriminate.
  simpl (pred <$> None).
  rewrite TextFacts.replace_absent by exact Hday. reflexivity.
Qed.

(** C7: [date_convert "Sun 6/5"] is ["Sun, Jun 5"]; the conversion raises
    exactly when the label has no digit run (an [IndexError]) or when its
    first number is not in 1..12 (a [KeyError]); and a label weekday,
    space, month, slash, day with a month in 1..12 is mapped to weekday,
    comma, space, three-letter month name, space, day. *)
Theorem date_convert_spec :
  date_convert "Sun 6/5" = Ok "Sun, Jun 5" /\
  (forall date, date_convert date = Raise IndexError <-> no_digit date) /\
  (forall date, date_convert date = Raise KeyError <-> month_out_of_range date) /\
  (forall date,
      (exists e, date_convert date = Raise e) <->
      no_digit date \/ month_out_of_range date) /\
  (forall weekday m day,
      no_digit weekday ->
      Str.contains " " weekday = false -> Str.contains "/" weekday = false ->
      1 <= m <= 12 ->
      Str.contains "/" day = false ->
      exists name,
        months !! Z.to_nat (m - 1) = Some name /\
        String.length name = 3%nat /\
        date_convert (weekday +:+ " " +:+ Str.str_of_int m +:+ "/" +:+ day)
        = Ok (weekday +:+ ", " +:+ name +:+ " " +:+ day)).
Proof.
  assert (Hidx : forall date,
             date_convert date = Raise IndexError <-> no_digit date).
  { intros date. rewrite <- TextFacts.findall_digits_nil. unfold date_convert.
    destruct (Str.findall_digits date) as [|run rest]; simpl.
    - tauto.
    - split; [|discriminate].
      destruct (number_to_month !! Str.int_of_digits run); discriminate. }
  assert (Hkey : forall date,
             date_convert date = Raise KeyError <-> month_out_of_range date).
  { intros date. unfold date_convert, month_out_of_range.
    destruct (Str.findall_digits date) as [|run rest]; simpl.
    - split; [discriminate | intros (? & ? & ? & _); discriminate].
    - pose proof (number_to_month_is_Some (Str.int_of_digits run)) as Hs.
      destruct (number_to_month !! Str.int_of_digits run) as [lab|].
      + split; [discriminate|]. intros (? & ? & [= <- <-] & Hn).
        exfalso. apply Hn, Hs. eauto.
      + split; [|reflexivity]. intros _. exists run, rest. split; [reflexivity|].
        intros Hr. apply Hs in Hr. destruct Hr; discriminate. }
  split; [vm_compute; reflexivity|].
  split; [exact Hidx|]. split; [exact Hkey|]. split.
  - intros date. split.
    + intros [e He].
      assert (He' : date_convert date = Raise IndexError \/
                    date_convert date = Raise KeyError).
      { unfold date_convert in *.
        destruct (Str.int_of_digits <$> Str.findall_digits date) as [|n ?];
          [now left|].
        destruct (number_to_month !! n); [discriminate | now right]. }
      destruct He' as [H|H];
        [left; exact (proj1 (Hidx date) H) | right; exact (proj1 (Hkey date) H)].
    + intros [H|H];
        [exists IndexError; exact (proj2 (Hidx date) H)
        | exists KeyError; exact (proj2 (Hkey date) H)].
  - intros weekday m day Hw Hsp Hsl Hm Hday.
    destruct (month_in_range m Hm)
      as (r0 & r' & name & Hstr & Hr0 & Hr' & Hint & Hname & Hlab & Hnosl & Hlen).
    exists name. split; [exact Hname|]. split; [exact Hlen|].
    rewrite Hstr. unfold date_convert.
    destruct (TextFacts.findall_first_run weekday " " (String r0 r') "/" day)
      as [rest Hrest]; try reflexivity; try exact Hw; try discriminate.
    { simpl. now rewrite Hr0, Hr'. }
    change (weekday +:+ " " +:+ String r0 r' +:+ "/" +:+ day)
      with (weekday +:+ String " " (String r0 r' +:+ String "/" day)) at 1.
    rewrite Hrest. simpl fmap. rewrite Hint, Hlab, Hstr.
    rewrite replace_chain; auto.
    now rewrite !TextFacts.append_assoc.
Qed.

Lemma date_convert_spec_witness :
  exists name,
    months !! Z.to_nat (12 - 1) = Some name /\
    String.length name = 3%nat /\
    date_convert ("Sat" +:+ " " +:+ Str.str_of_int 12 +:+ "/" +:+ "25")
    = Ok ("Sat" +:+ ", " +:+ name +:+ " " +:+ "25").
Proof.
  apply (proj2 (proj2 (proj2 (proj2 date_convert_spec))) "Sat" 12 "25");
    [reflexivity | reflexivity | reflexivity | lia | reflexivity].
Defined.

(** ** Row matcher *)

Lemma row_eq_fields (r row : GameRow) :
  forallb id [x r =? x row; y r =? y row; String.eqb (date r) (date row)] = true <->
  x r = x row /\ y r = y row /\ date r = date row.
Proof.
  simpl. rewrite !andb_true_iff, !Z.eqb_eq, String.eqb_eq. unfold id. tauto.
Qed.

Lemma row_in_df_iff row df :
  row_in_df row df = true <->
  exists l r, (l, r) ∈ df /\ x r = x row /\ y r = y row /\ date r = date row.
Proof.
  unfold row_in_df, frame_eq.
  induction df as [|[l r] df IH].
  - simpl. split; [discriminate|]. intros (? & ? & H & _). inversion H.
  - rewrite !fmap_cons. cbn [existsb snd].
    rewrite orb_true_iff, IH. unfold id at 1. rewrite row_eq_fields. split.
    + intros [H | (l' & r' & Hin & H)].
      * exists l, r. split; [left | exact H].
      * exists l', r'. split; [now right | exact H].
    + intros (l' & r' & Hin & H). apply elem_of_cons in Hin as [[= -> ->] | Hin].
      * now left.
      * right. eauto.
Qed.

(** C8: [row_in_df] holds exactly when some row of the table has the same
    [x], the same [y] and the same [date] as the probe; and
    [keep_row_if_in_df] returns the original row when the probe is found
    in the table that way, and the empty row otherwise. *)
Theorem row_matcher_spec :
  (forall row df,
      row_in_df row df = true <->
      exists l r, (l, r) ∈ df /\ x r = x row /\ y r = y row /\ date r = date row) /\
  (forall (R : Type) df (row_original : R) row_changed,
      ((exists l, (l, row_changed) ∈ df) ->
       keep_row_if_in_df df row_original row_changed = Some row_original) /\
      ((forall l, (l, row_changed) ∉ df) ->
       keep_row_if_in_df df row_original row_changed = None)).
Proof.
  split; [exact row_in_df_iff|].
  intros R df row_original row_changed. unfold keep_row_if_in_df. split.
  - intros [l Hl].
    assert (H : row_in_df row_changed df = true).
    { apply row_in_df_iff. exists l, row_changed. auto. }
    now rewrite H.
  - intros Hno. destruct (row_in_df row_changed df) eqn:E; [|reflexivity].
    apply row_in_df_iff in E as (l & r & Hin & Hx & Hy & Hd).
    exfalso. apply (Hno l). destruct r, row_changed. simpl in *. now subst.
Qed.

Lemma row_matcher_spec_witness :
  let team := [(0, {| x := 100; y := 90; date := "Sun, Jun 5" |});
               (1, {| x := 80; y := 95; date := "Tue, Jun 7" |})] in
  let log := {| p_x := 80; p_y := 95; p_date := "Tue, Jun 7"; score := 31 |} in
  keep_row_if_in_df team log (drop_score log) = Some log.
Proof.
  intros team log.
  apply (proj1 (proj2 row_matcher_spec PlayerRow team log (drop_score log))).
  exists 1. apply list_elem_of_In. simpl. auto.
Defined.

(** ** Participation classifier *)

Lemma applies_category_of r P1 P2 c :
  applies c r P1 P2 <-> c = category_of (row_in_df r P1) (row_in_df r P2).
Proof.
  destruct c; simpl; destruct (row_in_df r P1), (row_in_df r P2); simpl;
    (split; [intros [? ?]; congruence
            | intros E; (discriminate E || (split; reflexivity))]).
Qed.

Lemma mapM_classify P1 P2 more df :
  mapM (fun r : label * GameRow => classify_row (P1 :: P2 :: more) r.2) df
  = Ok ((fun r => (row_in_df r.2 P1, row_in_df r.2 P2)) <$> df).
Proof.
  induction df as [|r df IH]; [reflexivity|].
  simpl. simpl in IH. rewrite IH. reflexivity.
Qed.

Lemma in_dfs_to_color_rows df P1 P2 more c0 c1 more_colors both_color neutral_color
    neutral_ecolor :
  in_dfs_to_color df (P1 :: P2 :: more) (c0 :: c1 :: more_colors)
    both_color neutral_color neutral_ecolor
  = Ok (colored P1 P2 c0 c1 both_color neutral_color neutral_ecolor <$> df).
Proof.
  unfold in_dfs_to_color. simpl. rewrite mapM_classify. simpl. f_equal.
  induction df as [|[l r] df IH]; [reflexivity|].
  rewrite !fmap_cons. simpl. rewrite IH. f_equal. unfold colored. simpl.
  destruct (row_in_df r P1), (row_in_df r P2); simpl;
    now destruct (String.eqb _ neutral_color).
Qed.

(** C3: for every team table and every pair of player tables the
    classifier returns the team table, row for row, where the colour of a
    row is the entry of the fixed lookup for its two membership tests
    (exactly one of the four categories applies to the row), and the edge
    colour is that colour unless it equals the neutral colour, in which
    case it is the neutral edge colour. *)
Theorem in_dfs_to_color_spec T P1 P2 c0 c1 both_color neutral_color neutral_ecolor :
  exists T',
    in_dfs_to_color T [P1; P2] [c0; c1] both_color neutral_color neutral_ecolor = Ok T' /\
    length T' = length T /\
    forall i l r, T !! i = Some (l, r) ->
      exists c color_ ecolor_,
        (forall c', applies c' r P1 P2 <-> c' = c) /\
        color_ = category_color c (c0, c1) both_color neutral_color /\
        (color_ <> neutral_color -> ecolor_ = color_) /\
        (color_ = neutral_color -> ecolor_ = neutral_ecolor) /\
        T' !! i = Some (l, {| c_x := Val (x r); c_y := Val (y r); c_date := Val (date r);
                              color := Val color_; ecolor := Val ecolor_ |}).
Proof.
  eexists. split; [apply in_dfs_to_color_rows|].
  split; [apply length_fmap|].
  intros i l r Hi.
  exists (category_of (row_in_df r P1) (row_in_df r P2)).
  eexists _, _. split; [intros c'; apply applies_category_of|].
  split; [reflexivity|].
  rewrite list_lookup_fmap, Hi. simpl. unfold colored. simpl.
  split; [|split; [|reflexivity]].
  - intros Hne. apply String.eqb_neq in Hne. now rewrite Hne.
  - intros He. apply String.eqb_eq in He. now rewrite He.
Qed.

Lemma in_dfs_to_color_spec_witness :
  let T := [(0, {| x := 100; y := 90; date := "A" |});
            (1, {| x := 80; y := 95; date := "B" |})] in
  let P1 := [(0, {| x := 100; y := 90; date := "A" |})] in
  let P2 := [(0, {| x := 80; y := 95; date := "B" |})] in
  exists T',
    in_dfs_to_color T [P1; P2] ["#EF798A"; "#68C5DB"] "#ABA2E9" "#666666" "#000000" = Ok T' /\
    exists c color_ ecolor_,
      (forall c', applies c' {| x := 80; y := 95; date := "B" |} P1 P2 <-> c' = c) /\
      color_ = category_color c ("#EF798A", "#68C5DB") "#ABA2E9" "#666666" /\
      (color_ <> "#666666" -> ecolor_ = color_) /\
      (color_ = "#666666" -> ecolor_ = "#000000") /\
      T' !! 1%nat = Some (1, {| c_x := Val 80; c_y := Val 95; c_date := Val "B";
                                color := Val color_; ecolor := Val ecolor_ |}).
Proof.
  intros T P1 P2.
  destruct (in_dfs_to_color_spec T P1 P2 "#EF798A" "#68C5DB" "#ABA2E9" "#666666" "#000000")
    as (T' & HT' & _ & Hrows).
  exists T'. split; [exact HT'|].
  exact (Hrows 1%nat 1 {| x := 80; y := 95; date := "B" |} eq_refl).
Defined.

(** C10: no row is found in a table without rows, so with two empty
    player tables the classifier marks every row of the team table as
    Neither, with the neutral colour and the neutral edge colour. *)
Theorem empty_player_tables :
  (forall row, row_in_df row [] = false) /\
  (forall row, applies Neither row [] []) /\
  (forall T c0 c1 both_color neutral_color neutral_ecolor,
      in_dfs_to_color T [[]; []] [c0; c1] both_color neutral_color neutral_ecolor
      = Ok ((fun r : label * GameRow =>
               (r.1, {| c_x := Val (x r.2); c_y := Val (y r.2); c_date := Val (date r.2);
                        color := Val neutral_color; ecolor := Val neutral_ecolor |}))
            <$> T)).
Proof.
  split; [reflexivity|]. split; [intros row; split; reflexivity|].
  intros T c0 c1 both_color neutral_color neutral_ecolor.
  rewrite in_dfs_to_color_rows. f_equal. apply list_fmap_ext.
  intros i [l r] _. unfold colored. simpl. now rewrite String.eqb_refl.
Qed.

(** ** Aggregator *)

Lemma select_column_length {R : Type} (p : R -> bool) (df : DataFrame R) :
  length (Pd.select df (Pd.column p df))
  = length (filter (fun r : label * R => p r.2 = true) df).
Proof.
  induction df as [|[l r] df IH]; [reflexivity|].
  unfold Pd.column in *. rewrite fmap_cons. simpl.
  destruct (p r) eqn:E.
  - rewrite filter_cons_True by exact E. simpl. now rewrite IH.
  - rewrite filter_cons_False by (simpl; congruence). exact IH.
Qed.










(** Two games won of three, at the precisions 2, 0 and -1: the floats
    [66.67], [67.0] and [70.0]. *)
Example two_of_three :
  let df := [(0, {| x := 100; y := 90; date := "A" |});
             (1, {| x := 80; y := 95; date := "B" |});
             (2, {| x := 99; y := 101; date := "C" |})] in
  get_wins_percentage df 2 = Ok (PyFloat 0x1.0aae147ae147bp+6) /\
  get_wins_percentage df 0 = Ok (PyFloat 67) /\
  get_wins_percentage df (-1) = Ok (PyFloat 70).
Proof. repeat split; vm_compute; reflexivity. Qed.

(** ** Category splitter *)

Lemma cell_eq_str_true (a : cell string) c : Pd.cell_eq_str a c = true <-> a = Val c.
Proof.
  destruct a as [|s]; simpl; [split; discriminate|].
  rewrite String.eqb_eq. split; congruence.
Qed.

Lemma select_column {R : Type} (p : R -> bool) (df : DataFrame R) :
  Pd.select df (Pd.column p df) = filter (fun r : label * R => p r.2 = true) df.
Proof.
  induction df as [|[l r] df IH]; [reflexivity|].
  unfold Pd.column in *. rewrite fmap_cons. simpl.
  destruct (p r) eqn:E.
  - rewrite filter_cons_True by exact E. now rewrite IH.
  - rewrite filter_cons_False by (simpl; congruence). exact IH.
Qed.

Lemma select_invert_column {R : Type} (p : R -> bool) (df : DataFrame R) :
  Pd.select df (Pd.invert (Pd.column p df))
  = filter (fun r : label * R => p r.2 <> true) df.
Proof.
  induction df as [|[l r] df IH]; [reflexivity|].
  unfold Pd.column, Pd.invert in *. rewrite !fmap_cons. simpl.
  destruct (p r) eqn:E; simpl.
  - rewrite filter_cons_False by (simpl; rewrite E; auto). exact IH.
  - rewrite filter_cons_True by (simpl; congruence). now rewrite IH.
Qed.

Lemma split_yes df c :
  Pd.select df (Pd.column (fun r => Pd.cell_eq_str (color r) c) df)
  = filter (has_color c) df.
Proof.
  rewrite select_column. apply list_filter_iff. intros r. apply cell_eq_str_true.
Qed.

Lemma split_no df c :
  Pd.select df (Pd.invert (Pd.column (fun r => Pd.cell_eq_str (color r) c) df))
  = filter (fun r => ~ has_color c r) df.
Proof.
  rewrite select_invert_column. apply list_filter_iff. intros r.
  unfold has_color. now rewrite cell_eq_str_true.
Qed.

(** *** Column assignment with a constant Series *)

Section SetitemConst.
Context {R X : Type} (blank : R) (set : cell string -> R -> R) (c : string).

(** The Series [src[name].apply(lambda x: c)]. *)
Let const (src : list (label * X)) : Series string := (fun r => (r.1, c)) <$> src.

Lemma const_labels src : (const src).*1 = src.*1.
Proof. unfold const. rewrite <- list_fmap_compose. now apply list_fmap_ext. Qed.

Lemma zip_with_const (df : DataFrame R) : forall src,
  length df = length src ->
  zip_with (fun r (v : label * string) => (r.1, set (Val v.2) r.2)) df (const src)
  = (fun r => (r.1, set (Val c) r.2)) <$> df.
Proof.
  induction df as [|r df IH]; intros [|s src] Hlen; simpl in *;
    try reflexivity; try discriminate.
  f_equal. apply IH. congruence.
Qed.

Lemma at_label_const src l : l ∈ src.*1 -> Pd.at_label (const src) l = Val c.
Proof.
  induction src as [|[k v] src IH]; simpl.
  - intros H. inversion H.
  - intros H. destruct (Z.eqb_spec k l) as [_|Hne]; [reflexivity|].
    apply IH. apply elem_of_cons in H as [H|H]; [congruence | exact H].
Qed.

Lemma zip_with_blank (src : list (label * X)) :
  zip_with (fun (r : label * R) (v : label * string) => (r.1, set (Val v.2) r.2))
    ((fun v : label * string => (v.1, blank)) <$> const src) (const src)
  = (fun r => (r.1, set (Val c) blank)) <$> src.
Proof. induction src as [|a l IH]; simpl; [reflexivity | f_equal; exact IH]. Qed.

(** A frame without rows takes the labels of the value. *)
Lemma setitem_empty_frame (value : Series string) :
  value <> [] ->
  Pd.setitem blank set [] value
  = Ok (zip_with (fun (r : label * R) (v : label * string) => (r.1, set (Val v.2) r.2))
          ((fun v : label * string => (v.1, blank)) <$> value) value).
Proof.
  intros Hne. destruct value as [|v value]; [congruence|].
  unfold Pd.setitem. cbv zeta iota.
  rewrite bool_decide_eq_true_2; [reflexivity|].
  rewrite <- list_fmap_compose. now apply list_fmap_ext.
Qed.

Lemma setitem_const_empty src :
  src <> [] ->
  Pd.setitem blank set [] (const src) = Ok ((fun r => (r.1, set (Val c) blank)) <$> src).
Proof.
  intros Hne. rewrite <- zip_with_blank. apply setitem_empty_frame.
  destruct src; [congruence | discriminate].
Qed.

(** A frame with rows, labelled within the labels of the value, gets
    the constant in every row. *)
Lemma setitem_const (df : DataFrame R) src :
  df <> [] -> df.*1 ⊆ src.*1 -> NoDup src.*1 ->
  Pd.setitem blank set df (const src) = Ok ((fun r => (r.1, set (Val c) r.2)) <$> df).
Proof.
  intros Hne Hsub Hnd. unfold Pd.setitem.
  replace (match df, const src with
           | [], _ :: _ => (fun v => (v.1, blank)) <$> const src
           | _, _ => df
           end) with df by (destruct df; [congruence | now destruct (const src)]).
  rewrite const_labels.
  destruct (bool_decide (df.*1 = src.*1)) eqn:E.
  - apply bool_decide_eq_true_1 in E. simpl. f_equal. apply zip_with_const.
    apply (f_equal length) in E. now rewrite !length_fmap in E.
  - rewrite (bool_decide_eq_false_2 (df = [])) by exact Hne.
    rewrite bool_decide_eq_true_2 by exact Hnd. simpl. f_equal.
    apply list_fmap_ext. intros i r Hi. f_equal. f_equal.
    apply at_label_const, Hsub. apply list_elem_of_fmap. exists r. split; [reflexivity|].
    eapply list_elem_of_lookup_2, Hi.
Qed.
End SetitemConst.

Lemma bind_Ok {A B : Type} (a : A) (f : A -> result B) : Ok a ≫= f = f a.
Proof. reflexivity. Qed.

Lemma relabel_fst {R S : Type} (f : label * R -> S) (l : DataFrame R) :
  ((fun r => (r.1, f r)) <$> l).*1 = l.*1.
Proof. rewrite <- list_fmap_compose. now apply list_fmap_ext. Qed.

Lemma filter_labels_subseteq {R : Type} (P : label * R -> Prop)
    `{forall r, Decision (P r)} (df : DataFrame R) :
  (filter P df).*1 ⊆ df.*1.
Proof.
  intros l Hl. apply list_elem_of_fmap in Hl as (r & -> & Hr).
  apply list_elem_of_fmap. exists r. split; [reflexivity|].
  now apply list_elem_of_filter in Hr as [_ Hr].
Qed.

(** What the splitter returns on a table with distinct labels: the rows
    of the requested colour as they are and the other rows greyed out;
    but when no other row exists, one row of missing values for every
    label of the table. *)
Lemma get_plotting_dfs_cases df c n :
  NoDup df.*1 ->
  get_plotting_dfs df c n
  = Ok (match filter (fun r => ~ has_color c r) df with
        | [] => phantom n <$> df
        | rest => greyed n <$> rest
        end,
        filter (has_color c) df).
Proof.
  intros Hnd. unfold get_plotting_dfs. rewrite split_yes, split_no.
  replace (Pd.apply (fun _ => n) (Pd.column color df))
    with ((fun r : label * ColoredRow => (r.1, n)) <$> df)
    by (unfold Pd.apply, Pd.column; now rewrite <- list_fmap_compose).
  replace (Pd.apply (fun _ => n) (Pd.column ecolor df))
    with ((fun r : label * ColoredRow => (r.1, n)) <$> df)
    by (unfold Pd.apply, Pd.column; now rewrite <- list_fmap_compose).
  destruct (filter (fun r => ~ has_color c r) df) as [|r rest] eqn:E.
  - destruct df as [|d df]; [reflexivity|].
    rewrite setitem_const_empty by discriminate. rewrite bind_Ok.
    rewrite setitem_const.
    + rewrite bind_Ok. do 2 f_equal. rewrite <- list_fmap_compose. reflexivity.
    + discriminate.
    + now rewrite (relabel_fst (fun _ => set_color (Val n) nan_row)).
    + exact Hnd.
  - assert (Hsub : (r :: rest).*1 ⊆ df.*1).
    { rewrite <- E. apply filter_labels_subseteq. }
    rewrite setitem_const; [|discriminate | exact Hsub | exact Hnd].
    rewrite bind_Ok. rewrite setitem_const.
    + rewrite bind_Ok. do 2 f_equal. rewrite <- list_fmap_compose. reflexivity.
    + discriminate.
    + now rewrite (relabel_fst (fun r => set_color (Val n) r.2)).
    + exact Hnd.
Qed.

(** Where some row has another colour, the two tables partition the
    input: the counts add up and no label is in both. *)
Lemma get_plotting_dfs_partition df c n :
  NoDup df.*1 ->
  (exists r, r ∈ df /\ ~ has_color c r) ->
  exists grey high,
    get_plotting_dfs df c n = Ok (grey, high) /\
    high = filter (has_color c) df /\
    grey = greyed n <$> filter (fun r => ~ has_color c r) df /\
    (length grey + length high = length df)%nat /\
    (forall l, l ∈ grey.*1 -> l ∉ high.*1).
Proof.
  intros Hnd (r & Hr & Hc).
  rewrite get_plotting_dfs_cases by exact Hnd.
  destruct (filter (fun r => ~ has_color c r) df) as [|r' rest] eqn:E.
  { exfalso. assert (Hin : r ∈ filter (fun r => ~ has_color c r) df)
      by (apply list_elem_of_filter; auto).
    rewrite E in Hin. inversion Hin. }
  rewrite <- E. eexists _, _. split; [reflexivity|].
  split; [reflexivity|]. split; [reflexivity|]. split.
  - rewrite length_fmap.
    pose proof (filter_app_complement (has_color c) df) as Hp.
    apply Permutation_length in Hp. rewrite length_app in Hp. lia.
  - intros l Hg Hh.
    unfold greyed in Hg. rewrite (relabel_fst (fun r => _)) in Hg.
    apply list_elem_of_fmap in Hg as ([l1 r1] & -> & Hg).
    apply list_elem_of_fmap in Hh as ([l2 r2] & Hl & Hh).
    simpl in Hl. subst l2.
    apply list_elem_of_filter in Hg as [Hg1 Hg2].
    apply list_elem_of_filter in Hh as [Hh1 Hh2].
    assert (r1 = r2); [|subst; auto].
    clear -Hnd Hg2 Hh2.
    induction df as [|[k v] df IH]; [inversion Hg2|].
    rewrite fmap_cons in Hnd. apply NoDup_cons in Hnd as [Hk Hnd].
    apply elem_of_cons in Hg2 as [Eg|Hg2]; apply elem_of_cons in Hh2 as [Eh|Hh2].
    + congruence.
    + exfalso. apply Hk. injection Eg as <- <-.
      apply list_elem_of_fmap. now exists (l1, r2).
    + exfalso. apply Hk. injection Eh as <- <-.
      apply list_elem_of_fmap. now exists (l1, r1).
    + auto.
Qed.

Lemma filter_none {A : Type} (P : A -> Prop) `{forall a, Decision (P a)} (l : list A) :
  (forall a, a ∈ l -> ~ P a) -> filter P l = [].
Proof.
  induction l as [|a l IH]; intros Hl; [reflexivity|].
  rewrite filter_cons_False by (apply Hl; left).
  apply IH. intros b Hb. apply Hl. now right.
Qed.

Lemma filter_every {A : Type} (P : A -> Prop) `{forall a, Decision (P a)} (l : list A) :
  (forall a, a ∈ l -> P a) -> filter P l = l.
Proof.
  induction l as [|a l IH]; intros Hl; [reflexivity|].
  rewrite filter_cons_True by (apply Hl; left).
  f_equal. apply IH. intros b Hb. apply Hl. now right.
Qed.

Lemma get_plotting_dfs_all_match df c n :
  NoDup df.*1 -> (forall r, r ∈ df -> has_color c r) ->
  get_plotting_dfs df c n = Ok (phantom n <$> df, df).
Proof.
  intros Hnd Hall. rewrite get_plotting_dfs_cases by exact Hnd.
  assert (E1 : filter (fun r => ~ has_color c r) df = []).
  { apply filter_none. intros r Hr H. now apply H, Hall. }
  assert (E2 : filter (has_color c) df = df).
  { apply filter_every. exact Hall. }
  now rewrite E1, E2.
Qed.

(** C6 (the code at the failing input): when the one row of a table has
    the requested colour, the table of greyed rows is not empty: it holds
    a row of missing values under the label of that row, so the two
    outputs share a label and their row counts add up to 2, not 1. *)
Theorem get_plotting_dfs_phantom_row :
  let row := {| c_x := Val 100; c_y := Val 90; c_date := Val "Sun, Jun 5";
                color := Val "#EF798A"; ecolor := Val "#EF798A" |} in
  let df := [(0, row)] in
  exists grey high,
    get_plotting_dfs df "#EF798A" "#E0E0E0" = Ok (grey, high) /\
    high = df /\
    grey = [(0, {| c_x := NaN; c_y := NaN; c_date := NaN;
                   color := Val "#E0E0E0"; ecolor := Val "#E0E0E0" |})] /\
    (length grey + length high)%nat = 2%nat /\ length df = 1%nat /\
    (exists l, l ∈ grey.*1 /\ l ∈ high.*1) /\
    filter (fun r => ~ has_color "#EF798A" r) df = [].
Proof.
  intros row df. eexists _, _. split; [vm_compute; reflexivity|].
  repeat split. exists 0. split; apply list_elem_of_In; simpl; auto.
Qed.

(** ** Numbers as sort keys *)

Module NumFacts.
Import Num.

Lemma ltb_trans a b c : ltb a b = true -> ltb b c = true -> ltb a c = true.
Proof.
  unfold ltb.
  destruct (val a) as [| |p|], (val b) as [| |q|], (val c) as [| |r|];
    simpl; try discriminate; try reflexivity.
  destruct (p ?= q)%Q eqn:E1; try discriminate.
  destruct (q ?= r)%Q eqn:E2; try discriminate.
  intros _ _. apply Qlt_alt in E1, E2.
  now rewrite (proj1 (Qlt_alt p r) (Qlt_trans _ _ _ E1 E2)).
Qed.

Lemma ltb_total a b :
  is_nan a = false -> is_nan b = false -> eqb a b = false ->
  ltb a b = true \/ ltb b a = true.
Proof.
  unfold is_nan, eqb, ltb.
  destruct (val a) as [| |p|], (val b) as [| |q|];
    simpl; try discriminate; auto.
  destruct (p ?= q)%Q eqn:E; try discriminate; auto.
  intros _ _ _. right. apply Qgt_alt in E.
  now rewrite (proj1 (Qlt_alt q p) E).
Qed.

Lemma eqb_refl a : is_nan a = false -> eqb a a = true.
Proof.
  unfold is_nan, eqb. destruct (val a) as [| |p|]; simpl; try discriminate; auto.
  intros _. now rewrite (proj1 (Qeq_alt p p) (Qeq_refl p)).
Qed.

Lemma ltb_not_eqb a b : ltb a b = true -> eqb a b = false.
Proof.
  unfold ltb, eqb. destruct (ext_compare (val a) (val b)) as [[]|]; congruence.
Qed.

Lemma eqb_sym a b : eqb a b = eqb b a.
Proof.
  unfold eqb.
  destruct (val a) as [| |p|], (val b) as [| |q|]; simpl; try reflexivity.
  rewrite <- (Qcompare_antisym p q). now destruct (p ?= q)%Q.
Qed.

Lemma ltb_irrefl a : ltb a a = false.
Proof.
  unfold ltb. destruct (val a) as [| |p|]; simpl; try reflexivity.
  now rewrite (proj1 (Qeq_alt p p) (Qeq_refl p)).
Qed.

End NumFacts.

(** ** Joint sorter *)

(** The sort against its pure counterpart: where every comparison the
    sort can ask answers [lt], the sort returns what the insertion sort
    by [lt] returns. *)
Section SortFacts.
Context {A : Type} `{PyOrd A} (lt : A -> A -> bool).

Lemma insert_ok pivot l :
  (forall p, p ∈ l -> py_lt pivot p = Ok (lt pivot p)) ->
  insert pivot l = Ok (insert_pure lt pivot l).
Proof.
  induction l as [|p l IH]; intros Hl; simpl; [reflexivity|].
  rewrite Hl by left. rewrite bind_Ok.
  destruct (lt pivot p); [reflexivity|].
  rewrite IH; [reflexivity|]. intros q Hq. apply Hl. now right.
Qed.

Lemma insert_pure_perm pivot l : insert_pure lt pivot l ≡ₚ pivot :: l.
Proof.
  induction l as [|p l IH]; simpl; [reflexivity|].
  destruct (lt pivot p); [reflexivity|].
  rewrite IH. apply Permutation_swap.
Qed.

Lemma sort_pure_perm rest : forall sorted_prefix,
  sort_pure lt sorted_prefix rest ≡ₚ sorted_prefix ++ rest.
Proof.
  induction rest as [|pivot rest IH]; intros sorted_prefix; simpl.
  - now rewrite app_nil_r.
  - rewrite IH, insert_pure_perm. simpl. apply Permutation_middle.
Qed.

Lemma sort_from_ok rest : forall sorted_prefix,
  answers lt (sorted_prefix ++ rest) -> NoDup (sorted_prefix ++ rest) ->
  sort_from sorted_prefix rest = Ok (sort_pure lt sorted_prefix rest).
Proof.
  induction rest as [|pivot rest IH]; intros sorted_prefix Hans Hnd; simpl;
    [reflexivity|].
  assert (Hperm : insert_pure lt pivot sorted_prefix ++ rest
                  ≡ₚ sorted_prefix ++ pivot :: rest).
  { rewrite insert_pure_perm. simpl. apply Permutation_middle. }
  rewrite insert_ok.
  - rewrite bind_Ok. apply IH.
    + intros a b Ha Hb. rewrite Hperm in Ha, Hb. now apply Hans.
    + now rewrite Hperm.
  - intros p Hp. apply Hans.
    + apply elem_of_app. right. left.
    + apply elem_of_app. now left.
    + intros <-. apply NoDup_app in Hnd as (_ & Hdis & _).
      apply (Hdis pivot Hp). left.
Qed.

Hypothesis lt_trans : forall a b c, lt a b = true -> lt b c = true -> lt a c = true.

Lemma insert_pure_sorted pivot l :
  StronglySorted (before lt) l ->
  (forall p, p ∈ l -> lt pivot p = false -> lt p pivot = true) ->
  StronglySorted (before lt) (insert_pure lt pivot l).
Proof.
  induction l as [|p l IH]; intros Hs Hd; simpl.
  - repeat constructor.
  - apply StronglySorted_inv in Hs as [Hs Hp].
    destruct (lt pivot p) eqn:E.
    + constructor; [now constructor|]. constructor; [exact E|].
      eapply Forall_impl; [exact Hp|]. intros q Hq. exact (lt_trans _ _ _ E Hq).
    + constructor.
      * apply IH; [exact Hs|]. intros q Hq. apply Hd. now right.
      * rewrite insert_pure_perm. constructor; [|exact Hp].
        apply Hd; [left | exact E].
Qed.

Lemma sort_pure_sorted rest : forall sorted_prefix,
  StronglySorted (before lt) sorted_prefix ->
  decides lt (sorted_prefix ++ rest) -> NoDup (sorted_prefix ++ rest) ->
  StronglySorted (before lt) (sort_pure lt sorted_prefix rest).
Proof.
  induction rest as [|pivot rest IH]; intros sorted_prefix Hs Hd Hnd; simpl;
    [exact Hs|].
  assert (Hperm : insert_pure lt pivot sorted_prefix ++ rest
                  ≡ₚ sorted_prefix ++ pivot :: rest).
  { rewrite insert_pure_perm. simpl. apply Permutation_middle. }
  apply IH.
  - apply insert_pure_sorted; [exact Hs|]. intros p Hp. apply Hd.
    + apply elem_of_app. right. left.
    + apply elem_of_app. now left.
    + intros <-. apply NoDup_app in Hnd as (_ & Hdis & _).
      apply (Hdis pivot Hp). left.
  - intros a b Ha Hb. rewrite Hperm in Ha, Hb. now apply Hd.
  - now rewrite Hperm.
Qed.

Lemma StronglySorted_snoc (R : A -> A -> Prop) l a :
  StronglySorted R l -> Forall (fun b => R b a) l -> StronglySorted R (l ++ [a]).
Proof.
  induction 1 as [|b l Hs IH Hb]; intros Hl; simpl.
  - repeat constructor.
  - apply Forall_cons in Hl as [Hba Hl]. constructor; [now apply IH|].
    apply Forall_app. split; [exact Hb | now constructor].
Qed.

Lemma StronglySorted_reverse (R : A -> A -> Prop) l :
  StronglySorted R l -> StronglySorted (fun a b => R b a) (reverse l).
Proof.
  induction 1 as [|a l Hs IH Ha]; [constructor|].
  rewrite reverse_cons. apply StronglySorted_snoc; [exact IH|].
  apply Forall_reverse. exact Ha.
Qed.

(** [sorted(l, reverse=True)]: a permutation of [l], each element
    before the smaller ones. *)
Lemma sorted_reverse_ok l :
  answers lt l -> decides lt l -> NoDup l ->
  exists out,
    sorted l true = Ok out /\ out ≡ₚ l /\
    StronglySorted (fun a b => lt b a = true) out.
Proof.
  intros Hans Hd Hnd. exists (reverse (sort_pure lt [] (reverse l))).
  assert (Hrev : reverse l ≡ₚ l) by apply reverse_Permutation.
  split; [|split].
  - unfold sorted. rewrite sort_from_ok; [reflexivity | |].
    + intros a b Ha Hb. simpl in Ha, Hb. rewrite Hrev in Ha, Hb. now apply Hans.
    + simpl. now rewrite Hrev.
  - now rewrite reverse_Permutation, sort_pure_perm.
  - apply (StronglySorted_reverse (before lt)). apply sort_pure_sorted.
    + constructor.
    + intros a b Ha Hb. simpl in Ha, Hb. rewrite Hrev in Ha, Hb. now apply Hd.
    + simpl. now rewrite Hrev.
Qed.
End SortFacts.

(** *** Four categories with distinct ratios *)

Lemma all_distinct_lookup ks :
  all_distinct ks = true ->
  forall i j a b, i <> j -> ks !! i = Some a -> ks !! j = Some b -> Num.eqb a b = false.
Proof.
  induction ks as [|k ks IH]; intros Hd i j a b Hij Hi Hj; [discriminate|].
  simpl in Hd. apply andb_true_iff in Hd as [Hk Hd].
  rewrite forallb_forall in Hk.
  destruct i as [|i], j as [|j]; simpl in Hi, Hj.
  - congruence.
  - injection Hi as ->. apply list_elem_of_lookup_2, list_elem_of_In, Hk in Hj.
    now apply negb_true_iff.
  - injection Hj as ->. apply list_elem_of_lookup_2, list_elem_of_In, Hk in Hi.
    rewrite NumFacts.eqb_sym. now apply negb_true_iff.
  - apply (IH Hd i j); auto.
Qed.

Lemma no_nan_elem ks k : no_nan ks = true -> k ∈ ks -> Num.is_nan k = false.
Proof.
  unfold no_nan. rewrite forallb_forall. intros H Hk.
  apply list_elem_of_In, H in Hk. now apply negb_true_iff.
Qed.

Section DistinctRatios.
Variable rows : list Category.
Hypothesis Hnan : no_nan (ratio_of <$> rows) = true.
Hypothesis Hdist : all_distinct (ratio_of <$> rows) = true.

Lemma rows_differ a b : a ∈ rows -> b ∈ rows -> a <> b ->
  Num.eqb (ratio_of a) (ratio_of b) = false.
Proof.
  intros Ha Hb Hab.
  apply list_elem_of_lookup in Ha as [i Hi]. apply list_elem_of_lookup in Hb as [j Hj].
  apply (all_distinct_lookup _ Hdist i j).
  - intros ->. congruence.
  - now rewrite list_lookup_fmap, Hi.
  - now rewrite list_lookup_fmap, Hj.
Qed.

Lemma rows_NoDup : NoDup rows.
Proof.
  apply NoDup_alt. intros i j a Hi Hj.
  destruct (decide (i = j)) as [|Hij]; [assumption|]. exfalso.
  assert (E : Num.eqb (ratio_of a) (ratio_of a) = false).
  { apply (all_distinct_lookup _ Hdist i j); [exact Hij | |];
      rewrite list_lookup_fmap; [now rewrite Hi | now rewrite Hj]. }
  rewrite NumFacts.eqb_refl in E; [discriminate|].
  apply (no_nan_elem _ _ Hnan). apply list_elem_of_fmap. exists a.
  split; [reflexivity | eapply list_elem_of_lookup_2, Hi].
Qed.

(** With different ratios the tuple comparison stops at the ratios. *)
Lemma rows_answers : answers by_ratio rows.
Proof.
  intros a b Ha Hb Hab. pose proof (rows_differ a b Ha Hb Hab) as E.
  destruct a as [[[ra da] ca] la], b as [[[rb db] cb] lb].
  unfold ratio_of in E. simpl in E.
  unfold py_lt, tuple4_ord, tuple4_lt. simpl. rewrite E. reflexivity.
Qed.

Lemma rows_decides : decides by_ratio rows.
Proof.
  intros a b Ha Hb Hab Hlt. unfold by_ratio in *.
  destruct (NumFacts.ltb_total (ratio_of a) (ratio_of b)) as [H|H]; auto.
  - apply (no_nan_elem _ _ Hnan), list_elem_of_fmap. eauto.
  - apply (no_nan_elem _ _ Hnan), list_elem_of_fmap. eauto.
  - now apply rows_differ.
  - congruence.
Qed.

Lemma sorted_by_ratio :
  exists out,
    sorted rows true = Ok out /\ out ≡ₚ rows /\
    StronglySorted (fun a b => by_ratio b a = true) out.
Proof.
  apply sorted_reverse_ok.
  - intros a b c. apply NumFacts.ltb_trans.
  - exact rows_answers.
  - exact rows_decides.
  - exact rows_NoDup.
Qed.
End DistinctRatios.

(** C5: with four pairwise different win ratios the joint sort returns
    the four sequences reordered together: the categories come out as one
    permutation of the categories put in, each ratio with its own pair of
    tables, colour and label, every ratio above all those after it (the
    highest at position 0, the lowest at position 3); the ratios
    10, 90, 50, 30 come out as 90, 50, 30, 10. *)
Theorem sort_as_one_distinct_ratios :
  (forall r0 r1 r2 r3 d0 d1 d2 d3 c0 c1 c2 c3 t0 t1 t2 t3,
      no_nan [r0; r1; r2; r3] = true ->
      all_distinct [r0; r1; r2; r3] = true ->
      exists o0 o1 o2 o3 : Category,
        sort_as_one [r0; r1; r2; r3] [d0; d1; d2; d3] [c0; c1; c2; c3]
          [t0; t1; t2; t3] true
        = Ok (Some ([ratio_of o0; ratio_of o1; ratio_of o2; ratio_of o3],
                    [o0.1.1.2; o1.1.1.2; o2.1.1.2; o3.1.1.2],
                    [o0.1.2; o1.1.2; o2.1.2; o3.1.2],
                    [o0.2; o1.2; o2.2; o3.2])) /\
        [o0; o1; o2; o3]
          ≡ₚ [(r0, d0, c0, t0); (r1, d1, c1, t1); (r2, d2, c2, t2); (r3, d3, c3, t3)] /\
        StronglySorted (fun a b => Num.ltb (ratio_of b) (ratio_of a) = true)
          [o0; o1; o2; o3]) /\
  (forall d0 d1 d2 d3 : DataFrame ColoredRow * DataFrame ColoredRow,
      sort_as_one [PyFloat 10; PyFloat 90; PyFloat 50; PyFloat 30] [d0; d1; d2; d3]
        ["c0"; "c1"; "c2"; "c3"] ["t0"; "t1"; "t2"; "t3"] true
      = Ok (Some ([PyFloat 90; PyFloat 50; PyFloat 30; PyFloat 10], [d1; d2; d3; d0],
                  ["c1"; "c2"; "c3"; "c0"], ["t1"; "t2"; "t3"; "t0"]))).
Proof.
  split; [|intros; vm_compute; reflexivity].
  intros r0 r1 r2 r3 d0 d1 d2 d3 c0 c1 c2 c3 t0 t1 t2 t3 Hnan Hdist.
  set (rows := [(r0, d0, c0, t0); (r1, d1, c1, t1); (r2, d2, c2, t2); (r3, d3, c3, t3)]).
  destruct (sorted_by_ratio rows Hnan Hdist) as (out & Hout & Hperm & Hsorted).
  assert (Hlen : length out = 4%nat) by now rewrite Hperm.
  destruct out as [|o0 [|o1 [|o2 [|o3 [|? ?]]]]]; try discriminate Hlen.
  exists o0, o1, o2, o3. split; [|split; [exact Hperm | exact Hsorted]].
  unfold sort_as_one.
  change (zip4 [r0; r1; r2; r3] [d0; d1; d2; d3] [c0; c1; c2; c3] [t0; t1; t2; t3])
    with rows.
  rewrite Hout. reflexivity.
Qed.

Lemma sort_as_one_distinct_ratios_witness :
  exists o0 o1 o2 o3 : Category,
    sort_as_one [PyFloat 25; PyInt 0; PyFloat 100; PyFloat 50]
      [([], []); ([], []); ([], []); ([], [])]
      ["#EF798A"; "#68C5DB"; "#ABA2E9"; "#666666"] ["a"; "b"; "c"; "d"] true
    = Ok (Some ([ratio_of o0; ratio_of o1; ratio_of o2; ratio_of o3],
                [o0.1.1.2; o1.1.1.2; o2.1.1.2; o3.1.1.2],
                [o0.1.2; o1.1.2; o2.1.2; o3.1.2],
                [o0.2; o1.2; o2.2; o3.2])) /\
    [o0; o1; o2; o3]
      ≡ₚ [(PyFloat 25, ([], []), "#EF798A", "a"); (PyInt 0, ([], []), "#68C5DB", "b");
          (PyFloat 100, ([], []), "#ABA2E9", "c"); (PyFloat 50, ([], []), "#666666", "d")] /\
    StronglySorted (fun a b => Num.ltb (ratio_of b) (ratio_of a) = true)
      [o0; o1; o2; o3].
Proof.
  apply (proj1 sort_as_one_distinct_ratios); reflexivity.
Defined.

(** The whole of [get_final_data] on a season with four different
    ratios: the categories come out by falling ratio (100.0, 66.67, 50.0,
    0.0), each with its colour and label. *)
Example get_final_data_mixed_season :
  exists tables,
    get_final_data mixed_season four_colors "#E0E0E0" ["Curry"; "Durant"]
    = Ok (Some ([PyFloat 100; PyFloat 0x1.0aae147ae147bp+6; PyFloat 50; PyFloat 0],
                tables,
                ["#ABA2E9"; "#68C5DB"; "#666666"; "#EF798A"],
                ["with both Curry and Durant"; "with Durant and no Curry";
                 "with neither Curry and Durant"; "with Curry and no Durant"])).
Proof. eexists. vm_compute. reflexivity. Qed.

(** *** Equal ratios *)

(** Two categories with equal ratios cannot be compared: the comparison
    goes on to the pairs of tables. *)
Lemma tie_raises (a b : Category) :
  Num.eqb (ratio_of a) (ratio_of b) = true -> py_lt a b = Raise ValueError.
Proof.
  destruct a as [[[ra da] ca] la], b as [[[rb db] cb] lb].
  unfold ratio_of. simpl. intros E.
  unfold py_lt, tuple4_ord, tuple4_lt. simpl. now rewrite E.
Qed.

(** C9: there is a classified table in which two of the four categories
    have equal win ratios (and different pairs of tables) for which
    [get_final_data] raises instead of returning an order: the ratios and
    the pairs of tables are computed, and the sort fails with a
    [ValueError] when the comparison of two categories with equal ratios
    reaches their pairs of tables. *)
Theorem get_final_data_tie :
  exists df colors neutral_color player_names percentages df_tuples,
    mapM (fun c => get_wins_percentage
                     (Pd.select df (Pd.column (fun r => Pd.cell_eq_str (color r) c) df)) 2)
         colors = Ok percentages /\
    mapM (fun c => get_plotting_dfs df c neutral_color) colors = Ok df_tuples /\
    length percentages = 4%nat /\
    (exists i j p q di dj,
        i <> j /\
        percentages !! i = Some p /\ percentages !! j = Some q /\
        df_tuples !! i = Some di /\ df_tuples !! j = Some dj /\
        Num.eqb p q = true /\ di <> dj /\
        forall ci cj ti tj : string,
          py_lt (p, di, ci, ti) (q, dj, cj, tj) = Raise ValueError) /\
    get_final_data df colors neutral_color player_names = Raise ValueError.
Proof.
  exists tied_season, four_colors, "#E0E0E0", ["Curry"; "Durant"].
  eexists _, _. split; [vm_compute; reflexivity|].
  split; [vm_compute; reflexivity|]. split; [reflexivity|].
  split; [|vm_compute; reflexivity].
  exists 2%nat, 3%nat. eexists _, _, _, _.
  split; [lia|]. do 4 (split; [reflexivity|]).
  split; [vm_compute; reflexivity|]. split; [discriminate|].
  intros ci cj ti tj. apply tie_raises. vm_compute. reflexivity.
Qed.

(** *** Every tie ends the sort *)

Lemma StronglySorted_lookup_pair {A : Type} (R : A -> A -> Prop) (l : list A) :
  StronglySorted R l ->
  forall i j a b, i <> j -> l !! i = Some a -> l !! j = Some b -> R a b \/ R b a.
Proof.
  induction 1 as [|c l Hs IH Hc]; intros i j a b Hij Hi Hj; [discriminate|].
  rewrite Forall_forall in Hc.
  destruct i as [|i], j as [|j]; simpl in Hi, Hj.
  - congruence.
  - injection Hi as ->. left. apply Hc. eapply list_elem_of_lookup_2, Hj.
  - injection Hj as ->. right. apply Hc. eapply list_elem_of_lookup_2, Hi.
  - apply (IH i j); auto.
Qed.

(** A comparison of two categories answers by the ratios or raises a
    [ValueError]. *)
Lemma category_lt_cases (a b : Category) :
  (Num.eqb (ratio_of a) (ratio_of b) = false /\ py_lt a b = Ok (by_ratio a b)) \/
  (Num.eqb (ratio_of a) (ratio_of b) = true /\ py_lt a b = Raise ValueError).
Proof.
  destruct (Num.eqb (ratio_of a) (ratio_of b)) eqn:E.
  - right. split; [reflexivity | now apply tie_raises].
  - left. split; [reflexivity|].
    destruct a as [[[ra da] ca] la], b as [[[rb db] cb] lb].
    unfold ratio_of in E. simpl in E.
    unfold py_lt, tuple4_ord, tuple4_lt, by_ratio, ratio_of. simpl. now rewrite E.
Qed.

Lemma insert_returns (pivot : Category) l :
  Num.is_nan (ratio_of pivot) = false -> no_nan (ratio_of <$> l) = true ->
  StronglySorted (before by_ratio) l ->
  (exists out, insert pivot l = Ok out /\
               StronglySorted (before by_ratio) out /\ out ≡ₚ pivot :: l) \/
  insert pivot l = Raise ValueError.
Proof.
  intros Hp. induction l as [|p l IH]; intros Hl Hs.
  - left. exists [pivot]. repeat split; repeat constructor.
  - simpl in Hl. apply andb_true_iff in Hl as [Hpn Hl]. apply negb_true_iff in Hpn.
    apply StronglySorted_inv in Hs as [Hs Hpl].
    cbn [insert]. destruct (category_lt_cases pivot p) as [[E ->]|[E ->]]; [|now right].
    rewrite bind_Ok. destruct (by_ratio pivot p) eqn:Hlt.
    + left. exists (pivot :: p :: l). split; [reflexivity|]. split; [|reflexivity].
      constructor; [now constructor|]. constructor; [exact Hlt|].
      eapply Forall_impl; [exact Hpl|]. intros q Hq.
      exact (NumFacts.ltb_trans _ _ _ Hlt Hq).
    + destruct (IH Hl Hs) as [(out & -> & Hout & Hperm)| -> ]; [|now right].
      left. exists (p :: out). split; [reflexivity|]. split.
      * constructor; [exact Hout|]. rewrite Hperm. constructor; [|exact Hpl].
        destruct (NumFacts.ltb_total _ _ Hp Hpn E) as [H|H]; [|exact H].
        unfold by_ratio in Hlt. congruence.
      * rewrite Hperm. apply Permutation_swap.
Qed.

Lemma sort_from_returns (rest : list Category) : forall sorted_prefix : list Category,
  no_nan (ratio_of <$> (sorted_prefix ++ rest)%list) = true ->
  StronglySorted (before by_ratio) sorted_prefix ->
  (exists out, sort_from sorted_prefix rest = Ok out /\
               StronglySorted (before by_ratio) out /\ out ≡ₚ sorted_prefix ++ rest) \/
  sort_from sorted_prefix rest = Raise ValueError.
Proof.
  unfold no_nan.
  induction rest as [|pivot rest IH]; intros sorted_prefix Hn Hs; simpl.
  - left. exists sorted_prefix. rewrite app_nil_r. auto.
  - rewrite fmap_app, forallb_app, fmap_cons in Hn. simpl in Hn.
    apply andb_true_iff in Hn as [Hn1 Hn2]. apply andb_true_iff in Hn2 as [Hp Hn2].
    apply negb_true_iff in Hp.
    destruct (insert_returns pivot sorted_prefix Hp Hn1 Hs)
      as [(s & -> & Hs' & Hperm)| -> ]; [|now right].
    rewrite bind_Ok. destruct (IH s) as [(out & -> & Hout & Hperm')| -> ];
      [| exact Hs' | | now right].
    + rewrite fmap_app, forallb_app, Hn2, andb_true_r.
      apply forallb_forall. intros k Hk. apply list_elem_of_In in Hk.
      rewrite Hperm in Hk. apply list_elem_of_In in Hk.
      change (ratio_of <$> pivot :: sorted_prefix)
        with (ratio_of pivot :: (ratio_of <$> sorted_prefix)) in Hk.
      destruct Hk as [<-|Hk]; [now rewrite Hp|].
      rewrite forallb_forall in Hn1. now apply Hn1.
    + left. exists out. split; [reflexivity|]. split; [exact Hout|].
      rewrite Hperm', Hperm. simpl. apply Permutation_middle.
Qed.

(** Where two of the categories to sort have equal ratios (none a NaN),
    [sorted] raises a [ValueError], whichever way it is asked to sort. *)
Lemma sorted_tie_raises (rows : list Category) flag i j a b :
  no_nan (ratio_of <$> rows) = true ->
  i <> j -> rows !! i = Some a -> rows !! j = Some b ->
  Num.eqb (ratio_of a) (ratio_of b) = true ->
  sorted rows flag = Raise ValueError.
Proof.
  intros Hn Hij Hi Hj Htie.
  assert (Hno : forall l out, l ≡ₚ rows ->
            StronglySorted (before by_ratio) out -> out ≡ₚ l -> False).
  { intros l out Hl Hs Hperm. rewrite Hl in Hperm. clear l Hl.
    symmetry in Hperm. apply Permutation_inj in Hperm as (_ & f & Hf & Hlook).
    rewrite Hlook in Hi, Hj.
    assert (Hfij : f i <> f j) by (intros E; apply Hij, Hf, E).
    destruct (StronglySorted_lookup_pair _ _ Hs _ _ _ _ Hfij Hi Hj) as [H|H];
      apply NumFacts.ltb_not_eqb in H; [|rewrite NumFacts.eqb_sym in H]; congruence. }
  unfold sorted. destruct flag.
  - destruct (sort_from_returns (reverse rows) []) as [(out & _ & Hs & Hperm)| -> ];
      [| constructor | | reflexivity].
    + simpl. unfold no_nan in *. apply forallb_forall. intros k Hk.
      rewrite forallb_forall in Hn. apply Hn.
      apply list_elem_of_In. apply list_elem_of_In in Hk.
      now rewrite fmap_reverse, reverse_Permutation in Hk.
    + exfalso. apply (Hno (reverse rows) out); auto. apply reverse_Permutation.
  - destruct (sort_from_returns rows []) as [(out & _ & Hs & Hperm)| -> ];
      [exact Hn | constructor | | reflexivity].
    exfalso. apply (Hno rows out); auto.
Qed.

(** * Further properties *)

(** ** Numbers as text *)

Module DecimalFacts.
Import Str.

Lemma int_from_uint d : forall acc,
  int_from acc (NilEmpty.string_of_uint d) = uval d acc.
Proof.
  induction d; intros acc; simpl; try reflexivity; rewrite IHd; f_equal;
    unfold digit_value; simpl; lia.
Qed.

Lemma uval_acc d : forall p : positive,
  uval d (Zpos p) = Zpos (Pos.of_uint_acc d p).
Proof.
  induction d; intros p; simpl; try reflexivity;
    match goal with
    | |- uval _ ?a = _ => replace a with (Zpos (Z.to_pos a)) by lia
    end; rewrite IHd; do 2 f_equal; lia.
Qed.

Lemma uval_of_uint d : uval d 0 = Z.of_N (Pos.of_uint d).
Proof.
  induction d; simpl; try reflexivity; try exact IHd;
    match goal with
    | |- uval _ ?a = _ => change a with (Zpos (Z.to_pos a))
    end; now rewrite uval_acc.
Qed.

Lemma uint_digits d : all is_digit (NilEmpty.string_of_uint d) = true.
Proof. induction d; simpl; auto. Qed.

Lemma uint_nonempty d : d <> Decimal.Nil -> NilEmpty.string_of_uint d <> EmptyString.
Proof. destruct d; simpl; congruence. Qed.

(** [f"{n}"] for [n >= 0]: a non-empty run of digits that reads back as
    [n]. *)
Lemma str_of_int_nonneg n :
  0 <= n ->
  all is_digit (str_of_int n) = true /\ str_of_int n <> EmptyString /\
  int_of_digits (str_of_int n) = n.
Proof.
  intros Hn. unfold str_of_int. destruct n as [|p|p]; [| |lia].
  - repeat split; discriminate.
  - simpl. pose proof (DecimalPos.Unsigned.to_uint_nonnil p) as Hnil.
    assert (E : NilZero.string_of_uint (Pos.to_uint p)
                = NilEmpty.string_of_uint (Pos.to_uint p)).
    { unfold NilZero.string_of_uint. destruct (Pos.to_uint p); congruence. }
    rewrite E. split; [apply uint_digits|]. split; [now apply uint_nonempty|].
    unfold int_of_digits. rewrite int_from_uint, uval_of_uint.
    now rewrite DecimalPos.Unsigned.of_to.
Qed.

(** [f"{n}"] for [n < 0] starts with the sign. *)
Lemma str_of_int_neg n : n < 0 -> exists s, str_of_int n = String "-" s.
Proof.
  intros Hn. unfold str_of_int. destruct n as [|p|p]; try lia.
  simpl. eauto.
Qed.

End DecimalFacts.

(** ** The guard of [get_stats] ([utils.has_special_chars]) *)

Lemma match_alnum_iff s :
  Re.match_alnum s = true <->
  exists t, Str.all Re.is_alnum t = true /\
            (s = t \/ s = t +:+ String "010" EmptyString).
Proof.
  induction s as [|c s IH]; simpl.
  - split; [|reflexivity]. intros _. exists EmptyString. auto.
  - destruct (Re.is_alnum c) eqn:Hc.
    + rewrite IH. split.
      * intros (t & Ht & Hs). exists (String c t). simpl. rewrite Hc, Ht.
        split; [reflexivity|]. destruct Hs as [->| ->]; auto.
      * intros (t & Ht & Hs). destruct t as [|c' t]; simpl in *.
        -- destruct Hs as [Hs|Hs]; [discriminate|].
           injection Hs as -> ->. discriminate Hc.
        -- apply andb_true_iff in Ht as [_ Ht]. exists t. split; [exact Ht|].
           destruct Hs as [Hs|Hs]; injection Hs as _ ->; auto.
    + rewrite andb_true_iff, String.eqb_eq. split.
      * intros [E ->]. apply Ascii.eqb_eq in E. subst c.
        exists EmptyString. auto.
      * intros (t & Ht & Hs). destruct t as [|c' t]; simpl in *.
        -- destruct Hs as [Hs|Hs]; [discriminate|]. injection Hs as -> ->. auto.
        -- apply andb_true_iff in Ht as [Hc' _].
           destruct Hs as [Hs|Hs]; injection Hs as -> _; congruence.
Qed.

(** X1: a text passes the guard exactly when it is made of ASCII letters
    and digits only, or of such a text followed by one newline. *)
Theorem has_special_chars_text s :
  has_special_chars (AStr s) = false <->
  exists t, Str.all Re.is_alnum t = true /\
            (s = t \/ s = t +:+ String "010" EmptyString).
Proof.
  unfold has_special_chars. simpl. rewrite negb_false_iff. apply match_alnum_iff.
Qed.

Lemma has_special_chars_text_witness :
  has_special_chars (AStr ("gsw" +:+ String "010" EmptyString)) = false.
Proof.
  apply (proj2 (has_special_chars_text ("gsw" +:+ String "010" EmptyString))).
  exists "gsw". split; [reflexivity | now right].
Defined.

Lemma digits_alnum s : Str.all Str.is_digit s = true -> Str.all Re.is_alnum s = true.
Proof.
  induction s as [|c s IH]; simpl; [reflexivity|].
  intros H. apply andb_true_iff in H as [Hc Hs]. rewrite IH by exact Hs.
  rewrite andb_true_r. unfold Str.is_digit in Hc. unfold Re.is_alnum.
  now rewrite Hc.
Qed.

(** X2: a number passes the guard exactly when it is not negative: the
    sign of [str(n)] is a special character. *)
Theorem has_special_chars_number n :
  has_special_chars (AnInt n) = true <-> n < 0.
Proof.
  unfold has_special_chars. simpl. rewrite negb_true_iff. split.
  - intros H. destruct (Z.lt_ge_cases n 0) as [Hn|Hn]; [exact Hn|].
    destruct (DecimalFacts.str_of_int_nonneg n Hn) as (Hd & _ & _).
    assert (Hm : Re.match_alnum (Str.str_of_int n) = true).
    { apply match_alnum_iff. exists (Str.str_of_int n). split; [|now left].
      now apply digits_alnum. }
    congruence.
  - intros Hn. destruct (DecimalFacts.str_of_int_neg n Hn) as [s ->]. reflexivity.
Qed.

Lemma has_special_chars_number_witness : has_special_chars (AnInt (-5)) = true.
Proof. apply (proj2 (has_special_chars_number (-5))). lia. Defined.

(** ** Years ([utils.years_to_list]) *)

(** Every run the scanner returns is a non-empty run of digits. *)
Lemma digit_runs_digits s rs :
  digit_runs s rs ->
  Forall (fun r => Str.all Str.is_digit r = true /\ r <> EmptyString) rs.
Proof. induction 1; constructor; auto. Qed.

Lemma int_from_nonneg s : forall acc,
  0 <= acc -> Str.all Str.is_digit s = true -> 0 <= Str.int_from acc s.
Proof.
  induction s as [|c s IH]; intros acc Hacc Hs; simpl; [exact Hacc|].
  simpl in Hs. apply andb_true_iff in Hs as [Hc Hs]. apply IH; [|exact Hs].
  unfold Str.is_digit in Hc. apply andb_true_iff in Hc as [Hc _].
  apply N.leb_le in Hc. unfold Str.digit_value. lia.
Qed.

(** X3: [years_to_list] returns one number for every run of digits of the
    text, none of them negative (a hyphen separates, it is never a
    sign), and no number exactly when the text has no digit. *)
Theorem years_to_list_shape years :
  (forall runs, digit_runs years runs -> years_to_list years = Str.int_of_digits <$> runs) /\
  Forall (fun year => 0 <= year) (years_to_list years) /\
  (years_to_list years = [] <-> no_digit years).
Proof.
  split; [|split].
  - intros runs Hruns. apply findall_digits_runs in Hruns. now subst runs.
  - unfold years_to_list.
    pose proof (digit_runs_digits years _ (proj2 (findall_digits_runs years _) eq_refl)) as H.
    induction H as [|r rs [Hr _] _ IH]; [constructor|].
    rewrite fmap_cons. constructor; [|exact IH].
    apply int_from_nonneg; [lia | exact Hr].
  - unfold years_to_list. rewrite <- TextFacts.findall_digits_nil.
    destruct (Str.findall_digits years); simpl; split; congruence.
Qed.

Lemma years_to_list_shape_witness :
  years_to_list "2012-2016" = Str.int_of_digits <$> ["2012"; "2016"].
Proof.
  apply (proj1 (years_to_list_shape "2012-2016")).
  apply (runs_next EmptyString "2012" "-2016"); try reflexivity; [discriminate|].
  apply (runs_next "-" "2016" EmptyString); try reflexivity; [discriminate|].
  now constructor.
Defined.

(** One run of digits is one year; two runs with a digit-free text
    between them are two. *)
Lemma years_to_list_run s :
  Str.all Str.is_digit s = true -> s <> EmptyString ->
  years_to_list s = [Str.int_of_digits s].
Proof.
  intros Hs Hne. unfold years_to_list, Str.findall_digits.
  rewrite <- (append_empty_r s) at 1. rewrite TextFacts.findall_run by exact Hs.
  simpl. now destruct s; [congruence|].
Qed.

Lemma years_to_list_two_runs s1 sep s2 :
  Str.all Str.is_digit s1 = true -> s1 <> EmptyString ->
  sep <> EmptyString -> no_digit sep ->
  Str.all Str.is_digit s2 = true -> s2 <> EmptyString ->
  years_to_list (s1 +:+ sep +:+ s2) = [Str.int_of_digits s1; Str.int_of_digits s2].
Proof.
  intros H1 N1 Hsep Hnd H2 N2.
  unfold years_to_list, Str.findall_digits.
  rewrite TextFacts.findall_run by exact H1. simpl.
  destruct sep as [|c sep]; [congruence|].
  unfold no_digit in Hnd. simpl in Hnd. apply andb_true_iff in Hnd as [Hc Hnd].
  apply negb_true_iff in Hc. simpl. rewrite Hc.
  rewrite TextFacts.findall_skip by exact Hnd.
  change (Str.findall_from EmptyString s2) with (Str.findall_digits s2).
  destruct s1; [congruence|]. simpl. f_equal.
  exact (years_to_list_run s2 H2 N2).
Qed.

(** X4: a year written out is read back: the text [f"{a}"] gives [[a]],
    and two years written with any digit-free separator between them
    give the two years in order. *)
Theorem years_to_list_round_trip a b sep :
  0 <= a -> 0 <= b -> sep <> EmptyString -> no_digit sep ->
  years_to_list (Str.str_of_int a) = [a] /\
  years_to_list (Str.str_of_int a +:+ sep +:+ Str.str_of_int b) = [a; b].
Proof.
  intros Ha Hb Hsep Hnd.
  destruct (DecimalFacts.str_of_int_nonneg a Ha) as (Da & Na & Ia).
  destruct (DecimalFacts.str_of_int_nonneg b Hb) as (Db & Nb & Ib).
  split.
  - rewrite years_to_list_run by assumption. now rewrite Ia.
  - rewrite years_to_list_two_runs by assumption. now rewrite Ia, Ib.
Qed.

Lemma years_to_list_round_trip_witness :
  years_to_list (Str.str_of_int 2012) = [2012] /\
  years_to_list (Str.str_of_int 2012 +:+ "-" +:+ Str.str_of_int 2016) = [2012; 2016].
Proof.
  apply (years_to_list_round_trip 2012 2016 "-"); [lia | lia | discriminate | reflexivity].
Defined.

(** ** Chunks ([utils.split_list], [utils.flatten_list]) *)

Lemma flatten_list_concat {A : Type} (list_ : list (list A)) :
  flatten_list list_ = concat list_.
Proof.
  unfold flatten_list. induction list_ as [|i rest IH]; [reflexivity|].
  cbn [mbind list_bind]. cbn [mbind list_bind] in IH. rewrite IH. simpl. f_equal.
  clear. induction i as [|j i IH]; [reflexivity|]. cbn [mbind list_bind].
  cbn [mbind list_bind] in IH. now rewrite IH.
Qed.

Lemma py_range_up (stop step : Z) :
  0 <= stop -> 1 <= step ->
  py_range 0 stop step =
  Ok ((fun k => 0 + Z.of_nat k * step) <$> seq 0 (Z.to_nat ((stop + step - 1) / step))).
Proof.
  intros Hstop Hstep. unfold py_range.
  destruct (Z.eqb_spec step 0) as [?|_]; [lia|].
  destruct (Z.ltb_spec 0 step) as [_|?]; [|lia].
  do 3 f_equal. destruct (Z.ltb_spec 0 stop) as [Hpos|Hz].
  - replace (stop + step - 1) with (stop - 0 - 1 + 1 * step) by lia.
    rewrite Z.div_add by lia. reflexivity.
  - assert (stop = 0) as -> by lia. rewrite Z.div_small by lia. reflexivity.
Qed.

Lemma py_slice_chunk {A : Type} (l : list A) (k : nat) (n : Z) :
  1 <= n -> Z.of_nat k * n <= Z.of_nat (length l) ->
  py_slice l (0 + Z.of_nat k * n) (0 + Z.of_nat k * n + n) =
  take (Z.to_nat n) (drop (k * Z.to_nat n) l).
Proof.
  intros Hn Hk. unfold py_slice, slice_index.
  assert (Hkn : 0 <= Z.of_nat k * n) by nia.
  destruct (Z.ltb_spec (0 + Z.of_nat k * n) 0) as [?|_]; [lia|].
  destruct (Z.ltb_spec (0 + Z.of_nat k * n + n) 0) as [?|_]; [lia|].
  rewrite (Z.min_l (0 + Z.of_nat k * n)) by lia.
  replace (k * Z.to_nat n)%nat with (Z.to_nat (0 + Z.of_nat k * n)) by nia.
  set (kn := 0 + Z.of_nat k * n) in *.
  destruct (Z.le_gt_cases (kn + n) (Z.of_nat (length l))) as [Hin|Hout].
  - rewrite Z.min_l by lia. f_equal. lia.
  - rewrite Z.min_r by lia.
    rewrite !take_ge; [reflexivity| |]; rewrite length_drop; lia.
Qed.

Lemma split_list_chunks_eq {A : Type} (list_ : list A) (length_ : Z) :
  1 <= length_ ->
  split_list list_ length_ =
  Ok ((fun k => take (Z.to_nat length_) (drop (k * Z.to_nat length_) list_))
        <$> seq 0 (Z.to_nat ((Z.of_nat (length list_) + length_ - 1) / length_))).
Proof.
  intros Hn. unfold split_list. rewrite py_range_up by lia. f_equal.
  rewrite <- list_fmap_compose. apply list_fmap_ext. intros i k Hk.
  apply lookup_seq in Hk as [-> Hi]. simpl.
  apply py_slice_chunk; [exact Hn|].
  pose proof (Z.mul_div_le (Z.of_nat (length list_) + length_ - 1) length_).
  assert (Z.of_nat i + 1 <= (Z.of_nat (length list_) + length_ - 1) / length_) by lia.
  nia.
Qed.

Lemma concat_chunks {A : Type} (l : list A) (n c : nat) :
  concat ((fun k => take n (drop (k * n) l)) <$> seq 0 c) = take (c * n) l.
Proof.
  induction c as [|c IH]; [reflexivity|].
  rewrite seq_S, fmap_app, concat_app, IH. simpl.
  rewrite app_nil_r, take_take_drop. f_equal. lia.
Qed.

Lemma chunks_cover (len n : Z) :
  0 <= len -> 1 <= n -> len <= (len + n - 1) / n * n.
Proof.
  intros Hlen Hn.
  pose proof (Z.div_mod (len + n - 1) n ltac:(lia)).
  pose proof (Z.mod_pos_bound (len + n - 1) n ltac:(lia)). nia.
Qed.

(** X5: for a positive chunk length [split_list] returns, and
    [flatten_list] undoes it: the chunks, put end to end, are the list. *)
Theorem flatten_split_list {A : Type} (list_ : list A) (length_ : Z) :
  1 <= length_ ->
  exists chunks, split_list list_ length_ = Ok chunks /\ flatten_list chunks = list_.
Proof.
  intros Hn. eexists. split; [apply split_list_chunks_eq; exact Hn|].
  rewrite flatten_list_concat, concat_chunks. apply take_ge.
  pose proof (chunks_cover (Z.of_nat (length list_)) length_ ltac:(lia) Hn).
  nia.
Qed.

Lemma flatten_split_list_witness :
  exists chunks, split_list [1; 2; 3; 4; 5] 2 = Ok chunks /\ flatten_list chunks = [1; 2; 3; 4; 5].
Proof. apply (flatten_split_list [1; 2; 3; 4; 5] 2). lia. Defined.

(** X6: for a positive chunk length there are ceil(len / length) chunks;
    chunk [k] is the slice that starts at [k * length]; no chunk is
    empty or longer than [length], and all but the last have exactly
    that length. *)
Theorem split_list_chunks {A : Type} (list_ : list A) (length_ : Z) :
  1 <= length_ ->
  exists chunks,
    split_list list_ length_ = Ok chunks /\
    Z.of_nat (length chunks) = (Z.of_nat (length list_) + length_ - 1) / length_ /\
    forall k chunk, chunks !! k = Some chunk ->
      chunk = take (Z.to_nat length_) (drop (k * Z.to_nat length_) list_) /\
      1 <= Z.of_nat (length chunk) <= length_ /\
      ((S k < length chunks)%nat -> Z.of_nat (length chunk) = length_).
Proof.
  intros Hn. eexists. split; [apply split_list_chunks_eq; exact Hn|].
  rewrite length_fmap, length_seq.
  assert (Hdiv : 0 <= (Z.of_nat (length list_) + length_ - 1) / length_)
    by (apply Z.div_pos; lia).
  split; [lia|]. intros k chunk Hk.
  rewrite list_lookup_fmap in Hk.
  destruct (seq 0 _ !! k) as [k'|] eqn:Hseq; [|discriminate].
  apply lookup_seq in Hseq as [-> Hlt]. simpl in Hk. injection Hk as <-.
  split; [reflexivity|].
  pose proof (Z.mul_div_le (Z.of_nat (length list_) + length_ - 1) length_ ltac:(lia)).
  rewrite length_take, length_drop. split; [nia|]. intros Hlast. nia.
Qed.

Lemma split_list_chunks_witness :
  exists chunks,
    split_list [1; 2; 3; 4; 5] 2 = Ok chunks /\
    Z.of_nat (length chunks) = (Z.of_nat (length [1; 2; 3; 4; 5]) + 2 - 1) / 2 /\
    forall k chunk, chunks !! k = Some chunk ->
      chunk = take (Z.to_nat 2) (drop (k * Z.to_nat 2) [1; 2; 3; 4; 5]) /\
      1 <= Z.of_nat (length chunk) <= 2 /\
      ((S k < length chunks)%nat -> Z.of_nat (length chunk) = 2).
Proof. apply (split_list_chunks [1; 2; 3; 4; 5] 2). lia. Defined.

(** X7: a chunk length of zero raises ValueError, and a negative one
    loses the data without an error: the result is the empty list
    whatever the list holds. *)
Theorem split_list_not_positive {A : Type} (list_ : list A) (length_ : Z) :
  length_ <= 0 ->
  split_list list_ length_ = if length_ =? 0 then Raise ValueError else Ok [].
Proof.
  intros Hn. unfold split_list, py_range.
  destruct (Z.eqb_spec length_ 0) as [?|Hnz]; [reflexivity|].
  destruct (Z.ltb_spec 0 length_) as [?|_]; [lia|].
  destruct (Z.ltb_spec (Z.of_nat (length list_)) 0) as [?|_]; [lia|].
  reflexivity.
Qed.

Lemma split_list_not_positive_witness :
  split_list [1; 2; 3] (-2) = if -2 =? 0 then Raise ValueError else Ok [].
Proof. apply (split_list_not_positive [1; 2; 3] (-2)). lia. Defined.

(** ** Team names ([utils.code_to_team_name]) *)

Lemma NoDup_snd_inj {A B : Type} (l : list (A * B)) a b n :
  NoDup l.*2 -> (a, n) ∈ l -> (b, n) ∈ l -> a = b.
Proof.
  induction l as [|[a0 n0] l IH]; intros Hnd Ha Hb.
  - now apply elem_of_nil in Ha.
  - rewrite fmap_cons in Hnd. apply NoDup_cons in Hnd as [Hhead Hnd]. simpl in Hhead.
    assert (Htail : forall c, (c, n0) ∈ l -> False).
    { intros c Hc. apply Hhead. apply list_elem_of_fmap. now exists (c, n0). }
    apply elem_of_cons in Ha as [Ha|Ha]; apply elem_of_cons in Hb as [Hb|Hb].
    + congruence.
    + injection Ha as -> ->. now destruct (Htail b).
    + injection Hb as -> ->. now destruct (Htail a).
    + now apply IH.
Qed.

(** X8: a code that names a team has three characters and passes the
    guard of [get_stats], so that the table and the guard agree; the
    name it gives passes the guard as well, and no two codes give the
    same name. *)
Theorem code_to_team_name_ok code name :
  code_to_team_name code = Ok name ->
  String.length code = 3%nat /\
  has_special_chars (AStr code) = false /\
  has_special_chars (AStr name) = false /\
  forall code', code_to_team_name code' = Ok name -> code' = code.
Proof.
  unfold code_to_team_name, codes.
  match goal with |- context [list_to_map ?l] => set (table := l) end.
  intros H. destruct (list_to_map table !! code) as [name'|] eqn:Hlook; [|discriminate].
  injection H as ->. apply elem_of_list_to_map_2 in Hlook.
  assert (Hnames : NoDup table.*2) by (apply (bool_decide_unpack _); vm_compute; exact I).
  repeat split.
  - unfold table in Hlook.
    repeat (apply elem_of_cons in Hlook as [Hlook|Hlook];
            [injection Hlook as -> ->; reflexivity|]).
    now apply elem_of_nil in Hlook.
  - unfold table in Hlook.
    repeat (apply elem_of_cons in Hlook as [Hlook|Hlook];
            [injection Hlook as -> ->; reflexivity|]).
    now apply elem_of_nil in Hlook.
  - unfold table in Hlook.
    repeat (apply elem_of_cons in Hlook as [Hlook|Hlook];
            [injection Hlook as -> ->; reflexivity|]).
    now apply elem_of_nil in Hlook.
  - intros code' H'.
    destruct (list_to_map table !! code') as [name'|] eqn:Hlook'; [|discriminate].
    injection H' as ->. apply elem_of_list_to_map_2 in Hlook'.
    exact (NoDup_snd_inj table code' code name Hnames Hlook' Hlook).
Qed.

Lemma code_to_team_name_ok_witness :
  String.length "gsw" = 3%nat /\
  has_special_chars (AStr "gsw") = false /\
  has_special_chars (AStr "Warriors") = false /\
  forall code', code_to_team_name code' = Ok "Warriors" -> code' = "gsw".
Proof. apply (code_to_team_name_ok "gsw" "Warriors"). reflexivity. Defined.

(** ** The shape of a score ([utils.score_to_tuple]) *)

(** X9: a score that is read has as many numbers as the label has runs
    of digits, two at most: it can have one number or none.  No number
    is negative (the hyphen separates, it is never a sign), and the
    result is empty exactly when the label has no digit. *)
Theorem score_to_tuple_shape score numbers :
  score_to_tuple score = Some numbers ->
  (exists runs, digit_runs score runs /\ length numbers = Nat.min 2 (length runs)) /\
  Forall (fun n => 0 <= n) numbers /\
  (numbers = [] <-> no_digit score).
Proof.
  intros H. unfold score_to_tuple in H.
  destruct (negb _); [discriminate|].
  pose proof (proj2 (findall_digits_runs score _) eq_refl) as Hruns.
  pose proof (digit_runs_digits _ _ Hruns) as Hdigits.
  rewrite <- TextFacts.findall_digits_nil.
  set (runs := Str.findall_digits score) in *.
  assert (Hpos : Forall (fun n => 0 <= n) (Str.int_of_digits <$> runs)).
  { clear -Hdigits. induction Hdigits as [|r rs [Hr _] _ IH]; [constructor|].
    rewrite fmap_cons. constructor; [|exact IH]. apply int_from_nonneg; [lia|exact Hr]. }
  assert (Hnil : take 2 (Str.int_of_digits <$> runs) = [] <-> runs = []).
  { destruct runs; simpl; split; congruence. }
  destruct (Str.contains "W" score); injection H as <-.
  - split; [|split].
    + exists runs. split; [exact Hruns|]. now rewrite length_take, length_fmap.
    + now apply Forall_take.
    + exact Hnil.
  - split; [|split].
    + exists runs. split; [exact Hruns|].
      now rewrite length_reverse, length_take, length_fmap.
    + apply Forall_reverse. now apply Forall_take.
    + rewrite <- Hnil. split; intros E.
      * apply (f_equal reverse) in E. now rewrite reverse_involutive in E.
      * now rewrite E.
Qed.

Lemma score_to_tuple_shape_witness :
  (exists runs, digit_runs "W100" runs /\ length [100] = Nat.min 2 (length runs)) /\
  Forall (fun n => 0 <= n) [100] /\
  ([100] = [] <-> no_digit "W100").
Proof. apply (score_to_tuple_shape "W100" [100]). reflexivity. Defined.

(** ** More on the classifier ([parsing.in_dfs_to_color]) *)

(** X10: on a team table with rows the classifier raises an IndexError
    exactly when it is given fewer than two player tables or fewer than
    two player colours, and returns otherwise; what is given beyond the
    second table and the second colour is never looked at. *)
Theorem in_dfs_to_color_arity df dfs_compare player_colors both_color neutral_color
    neutral_ecolor :
  df <> [] ->
  (in_dfs_to_color df dfs_compare player_colors both_color neutral_color neutral_ecolor
   = Raise IndexError <->
   (length dfs_compare < 2 \/ length player_colors < 2)%nat) /\
  ((2 <= length dfs_compare /\ 2 <= length player_colors)%nat ->
   in_dfs_to_color df dfs_compare player_colors both_color neutral_color neutral_ecolor
   = in_dfs_to_color df (take 2 dfs_compare) (take 2 player_colors)
       both_color neutral_color neutral_ecolor /\
   exists out,
     in_dfs_to_color df dfs_compare player_colors both_color neutral_color neutral_ecolor
     = Ok out).
Proof.
  intros Hdf.
  destruct player_colors as [|c0 [|c1 more_colors]];
    [split; [split; [simpl; lia | reflexivity] | simpl; lia] ..|].
  destruct df as [|r df]; [congruence|].
  destruct dfs_compare as [|P1 [|P2 more]];
    [split; [split; [simpl; lia | reflexivity] | simpl; lia] ..|].
  split.
  - rewrite in_dfs_to_color_rows. split; [discriminate | simpl; lia].
  - intros _. simpl take. rewrite !in_dfs_to_color_rows. split; [reflexivity | eauto].
Qed.

Lemma in_dfs_to_color_arity_witness :
  let T := [(0, {| x := 100; y := 90; date := "A" |})] in
  in_dfs_to_color T [[]] ["#EF798A"; "#68C5DB"] "#ABA2E9" "#666666" "#000000"
  = Raise IndexError.
Proof.
  intros T.
  apply (proj1 (in_dfs_to_color_arity T [[]] ["#EF798A"; "#68C5DB"]
                  "#ABA2E9" "#666666" "#000000" ltac:(discriminate))).
  left. simpl. lia.
Defined.

(** X11: the classifier does not depend on which player comes first: the
    two player tables swapped, together with their colours, give the same
    classified table. *)
Theorem in_dfs_to_color_swap df P1 P2 c0 c1 both_color neutral_color neutral_ecolor :
  in_dfs_to_color df [P2; P1] [c1; c0] both_color neutral_color neutral_ecolor
  = in_dfs_to_color df [P1; P2] [c0; c1] both_color neutral_color neutral_ecolor.
Proof.
  rewrite !in_dfs_to_color_rows. f_equal. apply list_fmap_ext.
  intros i [l r] _. unfold colored. simpl.
  now destruct (row_in_df r P1), (row_in_df r P2).
Qed.

(** ** More on the row matcher ([utils.row_in_df]) *)

(** X12: whether a row is found depends on the rows of the table only,
    not on their labels, their order or their repetition; and a row is
    found in two tables put one after the other exactly when it is found
    in one of them. *)
Theorem row_in_df_rows row :
  (forall df df',
      (forall r, r ∈ df.*2 <-> r ∈ df'.*2) -> row_in_df row df = row_in_df row df') /\
  (forall df1 df2,
      row_in_df row (df1 ++ df2)%list = row_in_df row df1 || row_in_df row df2).
Proof.
  assert (Hrows : forall df,
             row_in_df row df = true <->
             exists r, r ∈ df.*2 /\ x r = x row /\ y r = y row /\ date r = date row).
  { intros df. rewrite row_in_df_iff. split.
    - intros (l & r & Hin & H). exists r. split; [|exact H].
      apply list_elem_of_fmap. now exists (l, r).
    - intros (r & Hin & H). apply list_elem_of_fmap in Hin as ([l r'] & -> & Hin).
      now exists l, r'. }
  split.
  - intros df df' Hsame. apply eq_true_iff_eq. rewrite !Hrows.
    split; intros (r & Hin & H); exists r; (split; [now apply Hsame | exact H]).
  - intros df1 df2. apply eq_true_iff_eq. rewrite orb_true_iff, !Hrows. split.
    + intros (r & Hin & H). rewrite fmap_app in Hin.
      apply elem_of_app in Hin as [Hin|Hin]; [left | right]; eauto.
    + intros [(r & Hin & H)|(r & Hin & H)]; exists r; (split; [|exact H]);
        rewrite fmap_app; apply elem_of_app; auto.
Qed.

Lemma row_in_df_rows_witness :
  let g1 := {| x := 100; y := 90; date := "Sun, Jun 5" |} in
  let g2 := {| x := 80; y := 95; date := "Tue, Jun 7" |} in
  row_in_df g2 [(0, g1); (1, g2)] = row_in_df g2 [(7, g2); (3, g1); (5, g2)].
Proof.
  intros g1 g2. apply (proj1 (row_in_df_rows g2)). intros r. simpl.
  rewrite !elem_of_cons, !elem_of_nil. tauto.
Defined.

(** ** More on the splitter ([parsing.get_plotting_dfs]) *)

Section SetitemLabels.
Context {R X : Type} (blank : R) (set : cell string -> R -> R) (c : string).

(** A frame under the very labels of the value gets the constant in
    every row, repeated labels or not. *)
Lemma setitem_const_same (df : DataFrame R) (src : list (label * X)) :
  df.*1 = src.*1 ->
  Pd.setitem blank set df ((fun r => (r.1, c)) <$> src)
  = Ok ((fun r => (r.1, set (Val c) r.2)) <$> df).
Proof.
  intros Hl. unfold Pd.setitem.
  assert (Hlen : length df = length src)
    by (apply (f_equal length) in Hl; now rewrite !length_fmap in Hl).
  replace (match df, (fun r : label * X => (r.1, c)) <$> src with
           | [], _ :: _ => (fun v => (v.1, blank)) <$> ((fun r : label * X => (r.1, c)) <$> src)
           | _, _ => df
           end) with df.
  2:{ destruct df; [|reflexivity]. destruct src; [reflexivity | discriminate]. }
  rewrite (const_labels c src), bool_decide_eq_true_2 by exact Hl. simpl. f_equal.
  now apply zip_with_const.
Qed.

(** A frame with rows under other labels than the value's is refused
    when the labels of the value repeat. *)
Lemma setitem_const_dup (df : DataFrame R) (src : list (label * X)) :
  df <> [] -> df.*1 <> src.*1 -> ~ NoDup src.*1 ->
  Pd.setitem blank set df ((fun r => (r.1, c)) <$> src) = Raise ValueError.
Proof.
  intros Hne Hl Hnd. unfold Pd.setitem.
  replace (match df, (fun r : label * X => (r.1, c)) <$> src with
           | [], _ :: _ => (fun v => (v.1, blank)) <$> ((fun r : label * X => (r.1, c)) <$> src)
           | _, _ => df
           end) with df
    by (destruct df; [congruence | now destruct ((fun r : label * X => (r.1, c)) <$> src)]).
  rewrite (const_labels c src).
  rewrite (bool_decide_eq_false_2 (df.*1 = src.*1)) by exact Hl.
  rewrite (bool_decide_eq_false_2 (df = [])) by exact Hne.
  now rewrite (bool_decide_eq_false_2 (NoDup src.*1)) by exact Hnd.
Qed.
End SetitemLabels.

Lemma filter_complement_all {A : Type} (P : A -> Prop) `{forall a, Decision (P a)}
    (l : list A) :
  filter P l = [] -> filter (fun a => ~ P a) l = l.
Proof.
  intros E. apply filter_every. intros a Ha HP.
  assert (Hin : a ∈ filter P l) by (apply list_elem_of_filter; auto).
  rewrite E in Hin. inversion Hin.
Qed.

(** The splitter on any table, repeated labels or not. *)
Lemma get_plotting_dfs_general df c n :
  get_plotting_dfs df c n
  = match filter (fun r => ~ has_color c r) df, filter (has_color c) df with
    | [], high => Ok (phantom n <$> df, high)
    | rest, [] => Ok (greyed n <$> rest, [])
    | rest, high =>
        if decide (NoDup df.*1) then Ok (greyed n <$> rest, high) else Raise ValueError
    end.
Proof.
  destruct (decide (NoDup df.*1)) as [Hnd|Hnd].
  { rewrite get_plotting_dfs_cases by exact Hnd.
    destruct (filter (fun r => ~ has_color c r) df), (filter (has_color c) df); reflexivity. }
  unfold get_plotting_dfs. rewrite split_yes, split_no.
  replace (Pd.apply (fun _ => n) (Pd.column color df))
    with ((fun r : label * ColoredRow => (r.1, n)) <$> df)
    by (unfold Pd.apply, Pd.column; now rewrite <- list_fmap_compose).
  replace (Pd.apply (fun _ => n) (Pd.column ecolor df))
    with ((fun r : label * ColoredRow => (r.1, n)) <$> df)
    by (unfold Pd.apply, Pd.column; now rewrite <- list_fmap_compose).
  destruct (filter (fun r => ~ has_color c r) df) as [|r rest] eqn:E.
  - destruct df as [|d df]; [reflexivity|].
    rewrite setitem_const_empty by discriminate. rewrite bind_Ok.
    rewrite setitem_const_same.
    + rewrite bind_Ok. do 2 f_equal. rewrite <- list_fmap_compose. reflexivity.
    + now rewrite (relabel_fst (fun _ => set_color (Val n) nan_row)).
  - destruct (filter (has_color c) df) as [|h high] eqn:Eh.
    + apply filter_complement_all in Eh. rewrite E in Eh. rewrite Eh.
      rewrite setitem_const_same by reflexivity. rewrite bind_Ok.
      rewrite setitem_const_same.
      * rewrite bind_Ok. do 2 f_equal. rewrite <- list_fmap_compose. reflexivity.
      * now rewrite (relabel_fst (fun r => set_color (Val n) r.2)).
    + rewrite setitem_const_dup; [reflexivity | discriminate | | exact Hnd].
      intros Hl. apply (f_equal length) in Hl. rewrite !length_fmap in Hl.
      pose proof (filter_app_complement (has_color c) df) as Hp.
      apply Permutation_length in Hp. rewrite length_app, E, Eh in Hp.
      simpl in Hl, Hp. lia.
Qed.

(** X13: the splitter raises only on a table in which a label repeats,
    and then only when some rows have the requested colour and some do
    not: the neutral colours are then aligned on labels that repeat,
    which is refused with a ValueError.  Nothing else is ever raised. *)
Theorem get_plotting_dfs_raises df c n :
  (get_plotting_dfs df c n = Raise ValueError <->
   ~ NoDup df.*1 /\ (exists r, r ∈ df /\ has_color c r) /\
   (exists r, r ∈ df /\ ~ has_color c r)) /\
  (forall e, get_plotting_dfs df c n = Raise e -> e = ValueError).
Proof.
  rewrite get_plotting_dfs_general.
  destruct (filter (fun r => ~ has_color c r) df) as [|r rest] eqn:E.
  { split; [|discriminate]. split; [discriminate|].
    intros (_ & _ & r & Hr & Hc).
    assert (Hin : r ∈ filter (fun r => ~ has_color c r) df)
      by (apply list_elem_of_filter; auto).
    rewrite E in Hin. inversion Hin. }
  destruct (filter (has_color c) df) as [|h high] eqn:Eh.
  { split; [|discriminate]. split; [discriminate|].
    intros (_ & (h & Hh & Hc) & _).
    assert (Hin : h ∈ filter (has_color c) df) by (apply list_elem_of_filter; auto).
    rewrite Eh in Hin. inversion Hin. }
  destruct (decide (NoDup df.*1)) as [Hnd|Hnd].
  { split; [|discriminate]. split; [discriminate | tauto]. }
  split; [|congruence]. split; [|reflexivity]. intros _.
  split; [exact Hnd|]. split.
  - exists h. assert (Hin : h ∈ filter (has_color c) df) by (rewrite Eh; left).
    apply list_elem_of_filter in Hin as [? ?]. auto.
  - exists r. assert (Hin : r ∈ filter (fun r => ~ has_color c r) df) by (rewrite E; left).
    apply list_elem_of_filter in Hin as [? ?]. auto.
Qed.

Lemma get_plotting_dfs_raises_witness :
  get_plotting_dfs [game 0 100 90 "#EF798A"; game 0 80 95 "#68C5DB"] "#EF798A" "#E0E0E0"
  = Raise ValueError.
Proof.
  apply (proj1 (get_plotting_dfs_raises _ _ _)). split; [|split].
  - intros H. apply NoDup_cons in H as [H _]. apply H. left.
  - exists (game 0 100 90 "#EF798A"). split; [left | reflexivity].
  - exists (game 0 80 95 "#68C5DB"). split; [right; left | discriminate].
Defined.

(** X14: on a table with distinct labels the splitter returns; the
    second table holds the rows of the requested colour, unchanged.
    Where some row has another colour the first table holds the other
    rows, in order, with both colour fields set to the neutral colour,
    and no label is in both tables.  The row counts of the two tables add
    up to that of the input exactly when the input has no row or some
    row has another colour; otherwise the first table has one row of
    missing values for every row of the input. *)
Theorem get_plotting_dfs_counts df c n :
  NoDup df.*1 ->
  exists grey high,
    get_plotting_dfs df c n = Ok (grey, high) /\
    high = filter (has_color c) df /\
    ((exists r, r ∈ df /\ ~ has_color c r) ->
     grey = greyed n <$> filter (fun r => ~ has_color c r) df /\
     forall l, l ∈ grey.*1 -> l ∉ high.*1) /\
    ((forall r, r ∈ df -> has_color c r) -> grey = phantom n <$> df /\ high = df) /\
    ((length grey + length high = length df)%nat <->
     df = [] \/ exists r, r ∈ df /\ ~ has_color c r).
Proof.
  intros Hnd.
  destruct (decide (Exists (fun r => ~ has_color c r) df)) as [Hex|Hall].
  - apply Exists_exists in Hex.
    destruct (get_plotting_dfs_partition df c n Hnd Hex)
      as (grey & high & -> & Hhigh & Hgrey & Hlen & Hdis).
    exists grey, high. split; [reflexivity|]. split; [exact Hhigh|].
    split; [auto|]. split.
    + intros Hall. destruct Hex as (r & Hr & Hc). now destruct (Hc (Hall r Hr)).
    + split; auto.
  - assert (Hall' : forall r, r ∈ df -> has_color c r).
    { intros r Hr. destruct (decide (has_color c r)) as [|Hc]; [assumption|].
      exfalso. apply Hall, Exists_exists. eauto. }
    rewrite (get_plotting_dfs_all_match df c n Hnd Hall').
    eexists _, _. split; [reflexivity|].
    split; [symmetry; now apply filter_every|]. split.
    + intros Hex. exfalso. apply Hall, Exists_exists, Hex.
    + split; [auto|]. rewrite length_fmap. split.
      * intros Hlen. left. destruct df; [reflexivity | simpl in Hlen; lia].
      * intros [->|Hex]; [reflexivity|]. exfalso. apply Hall, Exists_exists, Hex.
Qed.

Lemma get_plotting_dfs_counts_witness :
  exists grey high,
    get_plotting_dfs mixed_season "#68C5DB" "#E0E0E0" = Ok (grey, high) /\
    (length grey + length high = length mixed_season)%nat.
Proof.
  destruct (get_plotting_dfs_counts mixed_season "#68C5DB" "#E0E0E0")
    as (grey & high & Hrun & _ & _ & _ & Hlen).
  - apply (bool_decide_unpack _). vm_compute. exact I.
  - exists grey, high. split; [exact Hrun|]. apply Hlen. right.
    exists (game 0 100 90 "#EF798A"). split; [left | discriminate].
Defined.

(** ** More on the aggregator ([utils.get_wins_percentage]) *)

Lemma select_values_length {R : Type} (p : R -> bool) (df : DataFrame R) :
  length (Pd.select df (Pd.column p df)) = length (filter (fun v => p v = true) df.*2).
Proof.
  rewrite select_column_length.
  induction df as [|[l r] df IH]; [reflexivity|].
  rewrite fmap_cons. simpl. destruct (p r) eqn:E.
  - rewrite !filter_cons_True by exact E. simpl. now rewrite IH.
  - rewrite !filter_cons_False by (simpl; congruence). exact IH.
Qed.

(** X15: the win ratio depends on the rows of the table only, not on
    their labels or their order. *)
Theorem get_wins_percentage_rows {R : Type} `{XY R} (df df' : DataFrame R) precision :
  df.*2 ≡ₚ df'.*2 ->
  get_wins_percentage df precision = get_wins_percentage df' precision.
Proof.
  intros Hperm. unfold get_wins_percentage, len.
  rewrite !select_values_length.
  rewrite (Permutation_length (filter_Permutation _ _ _ Hperm)).
  apply Permutation_length in Hperm. rewrite !length_fmap in Hperm.
  now rewrite Hperm.
Qed.

Lemma get_wins_percentage_rows_witness :
  let g1 := {| x := 100; y := 90; date := "Sun, Jun 5" |} in
  let g2 := {| x := 80; y := 95; date := "Tue, Jun 7" |} in
  get_wins_percentage [(0, g1); (1, g2)] 2 = get_wins_percentage [(5, g2); (3, g1)] 2.
Proof.
  intros g1 g2. apply (get_wins_percentage_rows [(0, g1); (1, g2)] [(5, g2); (3, g1)] 2).
  simpl. apply Permutation_swap.
Defined.

(** X16: a table with rows, none of them a win (a missing score is no
    win), has the ratio [0.0] at every precision; the ratio is equal
    ([==]) to the integer [0] an empty table gets. *)
Theorem get_wins_percentage_no_win {R : Type} `{XY R} (df : DataFrame R) precision :
  df <> [] ->
  (forall r, r ∈ df -> Pd.cell_lt (col_x r.2) (col_y r.2) = false) ->
  get_wins_percentage df precision = Ok (PyFloat 0) /\
  get_wins_percentage ([] : DataFrame R) precision = Ok (PyInt 0) /\
  Num.eqb (PyFloat 0) (PyInt 0) = true.
Proof.
  intros Hne Hlose. split; [|split; reflexivity].
  unfold get_wins_percentage. rewrite select_column.
  rewrite filter_none by (intros r Hr; rewrite (Hlose r Hr); discriminate).
  unfold Num.truediv, len.
  destruct df as [|d df]; [congruence|].
  assert (Hlen : exists p, Z.of_nat (length (d :: df)) = Zpos p).
  { simpl length. rewrite Nat2Z.inj_succ. destruct (Z.of_nat (length df)) eqn:E; try lia.
    - now exists 1%positive.
    - exists (Pos.succ p). lia. }
  destruct Hlen as [p ->]. reflexivity.
Qed.

Lemma get_wins_percentage_no_win_witness :
  get_wins_percentage [(0, {| x := 100; y := 90; date := "Sun, Jun 5" |})] 2
  = Ok (PyFloat 0).
Proof.
  apply (get_wins_percentage_no_win [(0, {| x := 100; y := 90; date := "Sun, Jun 5" |})] 2).
  - discriminate.
  - intros r Hr. apply list_elem_of_singleton in Hr. subst r. reflexivity.
Defined.

(** ** More on the joint sorter ([utils.sort_as_one]) *)

Lemma bind_Ok_inv {A B : Type} (e : result A) (k : A -> result B) (b : B) :
  e ≫= k = Ok b -> exists a, e = Ok a /\ k a = Ok b.
Proof. destruct e as [a|x]; [eauto | discriminate]. Qed.

Lemma fmap_Ok_inv {A B : Type} (f : A -> B) (e : result A) (b : B) :
  f <$> e = Ok b -> exists a, e = Ok a /\ b = f a.
Proof. destruct e as [a|x]; simpl; [|discriminate]. intros [= <-]. eauto. Qed.

Section SortAnyOrder.
Context {A : Type} `{PyOrd A}.

(** Whatever the comparisons answer, a sort that returns has moved the
    elements only. *)
Lemma insert_perm pivot : forall l out,
  insert pivot l = Ok out -> out ≡ₚ pivot :: l.
Proof.
  induction l as [|p l IH]; intros out Hrun; cbn [insert] in Hrun.
  - now injection Hrun as <-.
  - apply bind_Ok_inv in Hrun as (b & _ & Hrun). destruct b.
    + now injection Hrun as <-.
    + apply fmap_Ok_inv in Hrun as (out' & Hrun & ->).
      rewrite (IH _ Hrun). apply Permutation_swap.
Qed.

Lemma sort_from_perm rest : forall sorted_prefix out,
  sort_from sorted_prefix rest = Ok out -> out ≡ₚ sorted_prefix ++ rest.
Proof.
  induction rest as [|pivot rest IH]; intros sorted_prefix out Hrun; cbn [sort_from] in Hrun.
  - injection Hrun as <-. now rewrite app_nil_r.
  - apply bind_Ok_inv in Hrun as (s & Hins & Hrun).
    rewrite (IH _ _ Hrun), (insert_perm _ _ _ Hins). simpl. apply Permutation_middle.
Qed.

Lemma sorted_perm l flag out : sorted l flag = Ok out -> out ≡ₚ l.
Proof.
  unfold sorted. destruct flag; intros Hrun.
  - apply fmap_Ok_inv in Hrun as (out' & Hrun & ->).
    rewrite reverse_Permutation, (sort_from_perm _ _ _ Hrun). simpl.
    apply reverse_Permutation.
  - now rewrite (sort_from_perm _ _ _ Hrun).
Qed.
End SortAnyOrder.

Lemma zip4_unzip4 {A B C D : Type} (rows : list (A * B * C * D)) :
  zip4 ((fun r => r.1.1.1) <$> rows) ((fun r => r.1.1.2) <$> rows)
       ((fun r => r.1.2) <$> rows) ((fun r => r.2) <$> rows) = rows.
Proof.
  unfold zip4. induction rows as [|[[[a b] c] d] rows IH]; [reflexivity|].
  rewrite !fmap_cons. simpl. f_equal. exact IH.
Qed.

Lemma lookup_zip4 {A B C D : Type} (a : list A) (b : list B) (c : list C) (d : list D)
    i va vb vc vd :
  zip4 a b c d !! i = Some (va, vb, vc, vd) <->
  a !! i = Some va /\ b !! i = Some vb /\ c !! i = Some vc /\ d !! i = Some vd.
Proof. unfold zip4. rewrite !lookup_zip_Some. tauto. Qed.

Lemma sort_as_one_Some {A B C D : Type} `{PyOrd A, PyOrd B, PyOrd C, PyOrd D}
    (a : list A) (b : list B) (c : list C) (d : list D) flag a' b' c' d' :
  sort_as_one a b c d flag = Ok (Some (a', b', c', d')) ->
  zip4 a' b' c' d' ≡ₚ zip4 a b c d /\
  length b' = length a' /\ length c' = length a' /\ length d' = length a'.
Proof.
  unfold sort_as_one. intros Hrun.
  apply fmap_Ok_inv in Hrun as (rows & Hrun & Hout).
  apply sorted_perm in Hrun.
  assert (Hrows : rows <> [] ->
            unzip4 rows = Some ((fun r => r.1.1.1) <$> rows, (fun r => r.1.1.2) <$> rows,
                                (fun r => r.1.2) <$> rows, (fun r => r.2) <$> rows))
    by (destruct rows; [congruence | reflexivity]).
  destruct (decide (rows = [])) as [->|Hne]; [discriminate|].
  rewrite (Hrows Hne) in Hout. injection Hout as -> -> -> ->.
  rewrite zip4_unzip4, !length_fmap. auto.
Qed.

(** X17: whatever the values are and however their comparisons answer,
    a joint sort that returns has reordered the rows only: the four
    sequences it returns, read side by side, are a permutation of the
    four it was given, read side by side and cut to the shortest; no
    value is separated from the three it came with.  It returns nothing
    exactly when one of the sequences is empty, and four sequences that
    are not empty otherwise. *)
Theorem sort_as_one_permutation {A B C D : Type} `{PyOrd A, PyOrd B, PyOrd C, PyOrd D}
    (a : list A) (b : list B) (c : list C) (d : list D) flag out :
  sort_as_one a b c d flag = Ok out ->
  (out = None <-> a = [] \/ b = [] \/ c = [] \/ d = []) /\
  forall a' b' c' d', out = Some (a', b', c', d') ->
    zip4 a' b' c' d' ≡ₚ zip4 a b c d /\
    a' <> [] /\
    length a' = length (zip4 a b c d) /\ length b' = length a' /\
    length c' = length a' /\ length d' = length a' /\
    length (zip4 a b c d)
    = Nat.min (Nat.min (Nat.min (length a) (length b)) (length c)) (length d).
Proof.
  intros Hrun.
  assert (Hempty : a = [] \/ b = [] \/ c = [] \/ d = [] <-> zip4 a b c d = []).
  { unfold zip4. split.
    - intros [-> | [-> | [-> | ->]]]; [reflexivity | now destruct a | now destruct a, b |].
      now destruct (zip (zip a b) c).
    - destruct a, b, c, d; simpl; try discriminate; auto. }
  assert (Hnone : out = None <-> a = [] \/ b = [] \/ c = [] \/ d = []).
  { unfold sort_as_one in Hrun.
    apply fmap_Ok_inv in Hrun as (rows & Hrun & ->).
    apply sorted_perm in Hrun. rewrite Hempty.
    destruct rows as [|r rows].
    - apply Permutation_nil_l in Hrun. split; [now intros _ | reflexivity].
    - split; [discriminate|]. intros He. rewrite He in Hrun.
      now apply Permutation_nil_r in Hrun. }
  split; [exact Hnone|].
  intros a' b' c' d' ->.
  destruct (sort_as_one_Some _ _ _ _ _ _ _ _ _ Hrun) as (Hperm & Hlb & Hlc & Hld).
  split; [exact Hperm|]. split.
  - intros ->. change (zip4 [] b' c' d') with (@nil (A * B * C * D)) in Hperm.
    apply Permutation_nil_l in Hperm. symmetry in Hperm.
    apply Hempty, Hnone in Hperm. discriminate.
  - split.
    + apply Permutation_length in Hperm. rewrite <- Hperm.
      unfold zip4. rewrite !length_zip. lia.
    + repeat (split; [assumption|]).
      unfold zip4. now rewrite !length_zip.
Qed.

Lemma sort_as_one_permutation_witness :
  zip4 [PyFloat 90; PyFloat 50; PyFloat 10] ["b"; "c"; "a"] ["B"; "C"; "A"] ["2"; "3"; "1"]
  ≡ₚ zip4 [PyFloat 10; PyFloat 90; PyFloat 50] ["a"; "b"; "c"] ["A"; "B"; "C"]
       ["1"; "2"; "3"; "4"].
Proof.
  assert (Hrun : sort_as_one [PyFloat 10; PyFloat 90; PyFloat 50] ["a"; "b"; "c"]
                   ["A"; "B"; "C"] ["1"; "2"; "3"; "4"] true
                 = Ok (Some ([PyFloat 90; PyFloat 50; PyFloat 10], ["b"; "c"; "a"],
                             ["B"; "C"; "A"], ["2"; "3"; "1"])))
    by (vm_compute; reflexivity).
  exact (proj1 (proj2 (sort_as_one_permutation _ _ _ _ _ _ Hrun) _ _ _ _ eq_refl)).
Defined.

Lemma fst_zip_take {A B : Type} (l : list A) : forall k : list B,
  (zip l k).*1 = take (length k) l.
Proof.
  induction l as [|a l IH]; intros [|b k]; simpl; try reflexivity.
  f_equal. apply IH.
Qed.

Lemma ratios_zip4 {B C D : Type} (ps : list PyNum) (b : list B) (c : list C) (d : list D) :
  exists n, (fun r : PyNum * B * C * D => r.1.1.1) <$> zip4 ps b c d = take n ps.
Proof.
  exists (Nat.min (Nat.min (length d) (length c)) (length b)).
  transitivity (((zip4 ps b c d).*1).*1).*1;
    [rewrite <- !list_fmap_compose; reflexivity|].
  unfold zip4.
  rewrite fst_zip_take, !fmap_take, fst_zip_take, fmap_take, fst_zip_take.
  now rewrite !take_take.
Qed.

Lemma no_nan_take ks : forall n, no_nan ks = true -> no_nan (take n ks) = true.
Proof.
  unfold no_nan. induction ks as [|k ks IH]; intros [|n]; simpl; auto.
  intros H. apply andb_true_iff in H as [-> H]. simpl. now apply IH.
Qed.

Lemma all_distinct_take ks : forall n, all_distinct ks = true -> all_distinct (take n ks) = true.
Proof.
  induction ks as [|k ks IH]; intros [|n]; simpl; auto.
  intros H. apply andb_true_iff in H as [Hk H].
  rewrite (IH n H), andb_true_r.
  rewrite forallb_forall in Hk. apply forallb_forall. intros k' Hk'.
  apply Hk. apply list_elem_of_In. apply list_elem_of_In in Hk'.
  exact (subseteq_take n ks k' Hk').
Qed.

(** X18: for any number of categories with pairwise different ratios,
    none a NaN, the joint sort returns in both directions: the rows come
    out as a permutation of the rows put in, every ratio above all those
    after it when sorting in reverse and below them otherwise. *)
Theorem sort_as_one_any_length (ps : list PyNum)
    (ds : list (DataFrame ColoredRow * DataFrame ColoredRow)) (cs ts : list string) flag :
  no_nan ps = true -> all_distinct ps = true ->
  exists out : list (PyNum * (DataFrame ColoredRow * DataFrame ColoredRow) * string * string),
    sort_as_one ps ds cs ts flag = Ok (unzip4 out) /\
    out ≡ₚ zip4 ps ds cs ts /\
    StronglySorted
      (fun a b => if flag then Num.ltb (ratio_of b) (ratio_of a) = true
                  else Num.ltb (ratio_of a) (ratio_of b) = true) out.
Proof.
  intros Hnan Hdist. set (rows := zip4 ps ds cs ts).
  destruct (ratios_zip4 ps ds cs ts) as [n Hn]. fold rows in Hn.
  assert (Hnan' : no_nan (ratio_of <$> rows) = true).
  { unfold ratio_of. rewrite Hn. now apply no_nan_take. }
  assert (Hdist' : all_distinct (ratio_of <$> rows) = true).
  { unfold ratio_of. rewrite Hn. now apply all_distinct_take. }
  unfold sort_as_one. fold rows. destruct flag.
  - destruct (sorted_by_ratio rows Hnan' Hdist') as (out & -> & Hperm & Hs).
    exists out. auto.
  - exists (sort_pure by_ratio [] rows). split; [|split].
    + unfold sorted. rewrite (sort_from_ok by_ratio); [reflexivity | |].
      * simpl. now apply rows_answers.
      * simpl. now apply rows_NoDup.
    + now rewrite sort_pure_perm.
    + apply (sort_pure_sorted by_ratio).
      * intros a b c. apply NumFacts.ltb_trans.
      * constructor.
      * simpl. now apply rows_decides.
      * simpl. now apply rows_NoDup.
Qed.

Lemma sort_as_one_any_length_witness :
  exists out : list (PyNum * (DataFrame ColoredRow * DataFrame ColoredRow) * string * string),
    sort_as_one [PyFloat 10; PyInt 0; PyFloat 50] [([], []); ([], []); ([], [])]
      ["a"; "b"; "c"] ["1"; "2"; "3"] false = Ok (unzip4 out) /\
    out ≡ₚ zip4 [PyFloat 10; PyInt 0; PyFloat 50] [([], []); ([], []); ([], [])]
             ["a"; "b"; "c"] ["1"; "2"; "3"] /\
    StronglySorted (fun a b => Num.ltb (ratio_of a) (ratio_of b) = true) out.
Proof.
  apply (sort_as_one_any_length [PyFloat 10; PyInt 0; PyFloat 50]
           [([], []); ([], []); ([], [])] ["a"; "b"; "c"] ["1"; "2"; "3"] false);
    vm_compute; reflexivity.
Defined.

(** ** More on the final data ([parsing.get_final_data]) *)

Lemma mapM_Ok_Forall2 {A B : Type} (f : A -> result B) (l : list A) : forall out,
  mapM f l = Ok out -> Forall2 (fun a b => f a = Ok b) l out.
Proof.
  induction l as [|a l IH]; intros out Hrun; cbn [mapM] in Hrun.
  - injection Hrun as <-. constructor.
  - apply bind_Ok_inv in Hrun as (b & Hb & Hrun).
    apply bind_Ok_inv in Hrun as (k & Hk & Hrun).
    injection Hrun as <-. constructor; auto.
Qed.

Lemma mapM_raise_only {A B : Type} (f : A -> result B) (l : list A) (e0 : exn) :
  (forall a e, f a = Raise e -> e = e0) ->
  forall e, mapM f l = Raise e -> e = e0.
Proof.
  intros Hf. induction l as [|a l IH]; intros e Hrun; cbn [mapM] in Hrun; [discriminate|].
  destruct (f a) as [b|e'] eqn:Ea.
  - rewrite bind_Ok in Hrun. destruct (mapM f l) as [k|e'']; [discriminate|].
    apply IH. simpl in Hrun. congruence.
  - simpl in Hrun. injection Hrun as <-. eapply Hf, Ea.
Qed.

Lemma mapM_pure {A B : Type} (f : A -> result B) (g : A -> B) (l : list A) :
  (forall a, f a = Ok (g a)) -> mapM f l = Ok (g <$> l).
Proof.
  intros Hf. induction l as [|a l IH]; [reflexivity|].
  cbn [mapM]. rewrite Hf, bind_Ok, IH. reflexivity.
Qed.

Lemma get_plotting_dfs_raise_only df c n e :
  get_plotting_dfs df c n = Raise e -> e = ValueError.
Proof.
  rewrite get_plotting_dfs_general.
  destruct (filter (fun r => ~ has_color c r) df), (filter (has_color c) df);
    try discriminate.
  destruct (decide (NoDup df.*1)); [discriminate | congruence].
Qed.

(** Two rows with equal ratios end the joint sort of the categories. *)
Lemma sort_as_one_tie_raises (ps : list PyNum)
    (ds : list (DataFrame ColoredRow * DataFrame ColoredRow)) (cs ts : list string)
    flag i j p q :
  no_nan ps = true -> i <> j ->
  ps !! i = Some p -> ps !! j = Some q -> Num.eqb p q = true ->
  (Nat.max i j < length ds)%nat -> (Nat.max i j < length cs)%nat ->
  (Nat.max i j < length ts)%nat ->
  sort_as_one ps ds cs ts flag = Raise ValueError.
Proof.
  intros Hnan Hij Hi Hj Htie Hds Hcs Hts.
  destruct (lookup_lt_is_Some_2 ds i ltac:(lia)) as [di Hdi].
  destruct (lookup_lt_is_Some_2 ds j ltac:(lia)) as [dj Hdj].
  destruct (lookup_lt_is_Some_2 cs i ltac:(lia)) as [ci Hci].
  destruct (lookup_lt_is_Some_2 cs j ltac:(lia)) as [cj Hcj].
  destruct (lookup_lt_is_Some_2 ts i ltac:(lia)) as [ti Hti].
  destruct (lookup_lt_is_Some_2 ts j ltac:(lia)) as [tj Htj].
  unfold sort_as_one.
  rewrite (sorted_tie_raises (zip4 ps ds cs ts) flag i j (p, di, ci, ti) (q, dj, cj, tj));
    [reflexivity | | exact Hij | | | exact Htie].
  - destruct (ratios_zip4 ps ds cs ts) as [n Hn].
    unfold ratio_of. rewrite Hn. now apply no_nan_take.
  - apply lookup_zip4. auto.
  - apply lookup_zip4. auto.
Qed.

(** X19: whenever two of the first four colours have equal win ratios
    (and no ratio is a NaN), [get_final_data] raises a ValueError
    instead of returning an order: the sort cannot compare the two
    categories. *)
Theorem get_final_data_any_tie df colors neutral_color player_names percentages i j p q :
  mapM (fun color_ =>
          get_wins_percentage
            (Pd.select df (Pd.column (fun r => Pd.cell_eq_str (color r) color_) df)) 2)
       colors = Ok percentages ->
  no_nan percentages = true ->
  (2 <= length player_names)%nat ->
  i <> j -> (i < 4)%nat -> (j < 4)%nat ->
  percentages !! i = Some p -> percentages !! j = Some q -> Num.eqb p q = true ->
  get_final_data df colors neutral_color player_names = Raise ValueError.
Proof.
  intros Hperc Hnan Hnames Hij Hi4 Hj4 Hi Hj Htie. unfold get_final_data.
  destruct (mapM (fun color_ => get_plotting_dfs df color_ neutral_color) colors)
    as [df_tuples|e] eqn:Htup.
  2:{ apply mapM_raise_only with (e0 := ValueError) in Htup; [now subst e|].
      intros c e'. apply get_plotting_dfs_raise_only. }
  rewrite bind_Ok, Hperc, bind_Ok.
  destruct player_names as [|n0 [|n1 names]]; simpl in Hnames; try lia.
  change (getitem (n0 :: n1 :: names) 0) with (Ok (A := string) n0).
  change (getitem (n0 :: n1 :: names) 1) with (Ok (A := string) n1).
  rewrite !bind_Ok.
  apply mapM_Ok_Forall2, Forall2_length in Htup.
  apply mapM_Ok_Forall2, Forall2_length in Hperc.
  apply lookup_lt_Some in Hi as Hi'. apply lookup_lt_Some in Hj as Hj'.
  apply (sort_as_one_tie_raises _ _ _ _ true i j p q); auto; simpl; lia.
Qed.

Lemma get_final_data_any_tie_witness :
  get_final_data tied_season four_colors "#E0E0E0" ["Curry"; "Durant"] = Raise ValueError.
Proof.
  apply (get_final_data_any_tie tied_season four_colors "#E0E0E0" ["Curry"; "Durant"]
           [PyFloat 0; PyFloat 50; PyFloat 100; PyFloat 100] 2 3 (PyFloat 100) (PyFloat 100));
    try (vm_compute; reflexivity); try lia.
Defined.

Lemma no_nan_const {A : Type} (l : list A) : no_nan ((fun _ => PyInt 0) <$> l) = true.
Proof. induction l as [|a l IH]; [reflexivity | exact IH]. Qed.

(** X20: on a table without rows every category has the ratio [0], so
    with two colours or more (and the two names) [get_final_data] raises
    a ValueError: a season without games cannot be drawn. *)
Theorem get_final_data_empty_table colors neutral_color player_names :
  (2 <= length colors)%nat -> (2 <= length player_names)%nat ->
  get_final_data [] colors neutral_color player_names = Raise ValueError.
Proof.
  intros Hcolors Hnames. unfold get_final_data.
  rewrite (mapM_pure _ (fun _ => ([], []))) by reflexivity.
  rewrite bind_Ok.
  rewrite (mapM_pure _ (fun _ => PyInt 0)) by reflexivity.
  rewrite bind_Ok.
  destruct player_names as [|n0 [|n1 names]]; simpl in Hnames; try lia.
  change (getitem (n0 :: n1 :: names) 0) with (Ok (A := string) n0).
  change (getitem (n0 :: n1 :: names) 1) with (Ok (A := string) n1).
  rewrite !bind_Ok.
  destruct colors as [|c0 [|c1 colors]]; simpl in Hcolors; try lia.
  apply (sort_as_one_tie_raises _ _ _ _ true 0 1 (PyInt 0) (PyInt 0));
    try reflexivity; try (simpl; lia). apply no_nan_const.
Qed.

Lemma get_final_data_empty_table_witness :
  get_final_data [] four_colors "#E0E0E0" ["Curry"; "Durant"] = Raise ValueError.
Proof.
  apply (get_final_data_empty_table four_colors "#E0E0E0" ["Curry"; "Durant"]);
    simpl; lia.
Defined.

(** ** The callers ([visualizing.draw_final_plot], [visualizing.draw_gif]) *)

Lemma filter_head {A : Type} (P : A -> Prop) `{forall a, Decision (P a)} (l : list A) a :
  a ∈ l -> P a -> exists b rest, filter P l = b :: rest /\ b ∈ l /\ P b.
Proof.
  intros Ha HP.
  assert (Hin : a ∈ filter P l) by (apply list_elem_of_filter; auto).
  destruct (filter P l) as [|b rest] eqn:E; [inversion Hin|].
  exists b, rest. split; [reflexivity|].
  assert (Hb : b ∈ filter P l) by (rewrite E; left).
  apply list_elem_of_filter in Hb as [? ?]. auto.
Qed.

(** X21: whatever [get_final_data] returns, the pair of tables that
    [draw_final_plot] picks for one of the returned colours is the pair
    [get_plotting_dfs] makes for that colour: the sort moves the
    colours and the pairs together, so the highlighted games are those
    of the colour asked for (also when a colour is listed twice). *)
Theorem draw_final_plot_selection df colors neutral_color player_names
    percentages df_tuples colors' text_ends k keep_color :
  get_final_data df colors neutral_color player_names
  = Ok (Some (percentages, df_tuples, colors', text_ends)) ->
  colors' !! k = Some keep_color ->
  draw_final_plot_df_tuple df_tuples colors' keep_color
  = get_plotting_dfs df keep_color neutral_color.
Proof.
  intros Hrun Hk. unfold get_final_data in Hrun.
  apply bind_Ok_inv in Hrun as (tuples0 & Htup & Hrun).
  apply bind_Ok_inv in Hrun as (percentages0 & _ & Hrun).
  apply bind_Ok_inv in Hrun as (n0 & _ & Hrun).
  apply bind_Ok_inv in Hrun as (n1 & _ & Hrun).
  apply sort_as_one_Some in Hrun as (Hperm & Hlt & Hlc & Hltx).
  apply mapM_Ok_Forall2 in Htup.
  assert (Hsel : forall t, (t, keep_color) ∈ zip df_tuples colors' ->
            get_plotting_dfs df keep_color neutral_color = Ok t).
  { intros t Ht. apply list_elem_of_lookup in Ht as [i Hi].
    apply lookup_zip_Some in Hi as [Ht Hc].
    destruct (lookup_lt_is_Some_2 percentages i) as [p Hp];
      [apply lookup_lt_Some in Ht; lia|].
    destruct (lookup_lt_is_Some_2 text_ends i) as [tx Htx];
      [apply lookup_lt_Some in Ht; lia|].
    assert (Hin : (p, t, keep_color, tx) ∈ zip4 percentages df_tuples colors' text_ends).
    { eapply list_elem_of_lookup_2. apply lookup_zip4. eauto. }
    rewrite Hperm in Hin. apply list_elem_of_lookup in Hin as [i' Hi'].
    apply lookup_zip4 in Hi' as (_ & Ht' & Hc' & _).
    destruct (Forall2_lookup_l _ _ _ _ _ Htup Hc') as (t' & Ht'' & Hget).
    congruence. }
  destruct (lookup_lt_is_Some_2 df_tuples k) as [tk Htk];
    [apply lookup_lt_Some in Hk; lia|].
  assert (Hin : (tk, keep_color) ∈ zip df_tuples colors').
  { eapply list_elem_of_lookup_2. apply lookup_zip_Some. eauto. }
  destruct (filter_head (fun ij : _ * string => ij.2 = keep_color) _ _ Hin eq_refl)
    as ([t c] & rest & Hf & Hb & Hc).
  simpl in Hc. subst c.
  unfold draw_final_plot_df_tuple. rewrite Hf. simpl.
  symmetry. apply Hsel, Hb.
Qed.

Lemma draw_final_plot_selection_witness :
  exists percentages df_tuples colors' text_ends,
    get_final_data mixed_season four_colors "#E0E0E0" ["Curry"; "Durant"]
    = Ok (Some (percentages, df_tuples, colors', text_ends)) /\
    draw_final_plot_df_tuple df_tuples colors' "#68C5DB"
    = get_plotting_dfs mixed_season "#68C5DB" "#E0E0E0".
Proof.
  destruct (get_final_data mixed_season four_colors "#E0E0E0" ["Curry"; "Durant"])
    as [[[[[percentages df_tuples] colors'] text_ends]|]|] eqn:Hrun;
    try (vm_compute in Hrun; discriminate).
  exists percentages, df_tuples, colors', text_ends. split; [reflexivity|].
  apply (draw_final_plot_selection mixed_season four_colors "#E0E0E0" ["Curry"; "Durant"]
           percentages df_tuples colors' text_ends 1 "#68C5DB" Hrun).
  vm_compute in Hrun. now injection Hrun as <- <- <- <-.
Defined.

Lemma py_range_seqZ a b :
  py_range a (b + 1) 1 = Ok (seqZ a (b - a + 1)).
Proof.
  unfold py_range, seqZ.
  change (1 =? 0) with false. change (0 <? 1) with true. cbv iota.
  assert (Hn : (if a <? b + 1 then (b + 1 - a - 1) / 1 + 1 else 0) = Z.max 0 (b - a + 1)).
  { destruct (Z.ltb_spec a (b + 1)); [rewrite Z.div_1_r|]; lia. }
  rewrite Hn. replace (Z.to_nat (Z.max 0 (b - a + 1))) with (Z.to_nat (b - a + 1)) by lia.
  f_equal. apply list_fmap_ext. intros i k _. lia.
Qed.

(** X22: the seasons [draw_gif] asks for.  A text of one year asks for
    that year; two years with a hyphen ask for every year from the first
    to the second, both included, and raise a ValueError when the second
    year is before the first; a text without a digit raises an
    IndexError, and nothing else does. *)
Theorem draw_gif_seasons_text :
  (forall a b, 0 <= a -> 0 <= b ->
     draw_gif_seasons (Str.str_of_int a) = Ok [a] /\
     draw_gif_seasons (Str.str_of_int a +:+ "-" +:+ Str.str_of_int b)
     = if a <=? b then Ok (seqZ a (b - a + 1)) else Raise ValueError) /\
  (forall years, draw_gif_seasons years = Raise IndexError <-> no_digit years).
Proof.
  split.
  - intros a b Ha Hb.
    destruct (DecimalFacts.str_of_int_nonneg a Ha) as (Da & Na & Ia).
    destruct (DecimalFacts.str_of_int_nonneg b Hb) as (Db & Nb & Ib).
    unfold draw_gif_seasons.
    rewrite years_to_list_run by assumption.
    rewrite (years_to_list_two_runs _ "-") by (assumption || discriminate || reflexivity).
    rewrite Ia, Ib. split; [reflexivity|].
    rewrite bool_decide_eq_false_2 by discriminate.
    change (getitem [a; b] 0) with (Ok (A := Z) a).
    change (getitem [a; b] 1) with (Ok (A := Z) b).
    rewrite !bind_Ok, py_range_seqZ. unfold seqZ.
    destruct (Z.leb_spec a b) as [Hle|Hgt].
    + destruct (Z.to_nat (b - a + 1)) eqn:E; [lia | reflexivity].
    + replace (Z.to_nat (b - a + 1)) with 0%nat by lia. reflexivity.
  - intros years. rewrite <- TextFacts.findall_digits_nil.
    unfold draw_gif_seasons, years_to_list.
    destruct (Str.findall_digits years) as [|r0 [|r1 rest]]; simpl.
    + tauto.
    + split; discriminate.
    + split; [|discriminate].
      now destruct (_ <$> seq 0 _).
Qed.

Lemma draw_gif_seasons_text_witness :
  draw_gif_seasons (Str.str_of_int 2012 +:+ "-" +:+ Str.str_of_int 2016)
  = Ok [2012; 2013; 2014; 2015; 2016].
Proof.
  exact (proj2 (proj1 draw_gif_seasons_text 2012 2016 ltac:(lia) ltac:(lia))).
Defined.

(** ** Argument checks ([docs.check_if_type], [docs.check_function_args]) *)

Section DocsFacts.
Context {Obj Cls : Type} (locate : string -> option Cls)
  (isinstance : Obj -> Cls -> result bool).

Lemma mapM_located_raise names name :
  name ∈ names -> locate name = None -> mapM (located locate) names = Raise ValueError.
Proof.
  intros Hin Hnone. induction names as [|n names IH]; [inversion Hin|].
  cbn [mapM]. destruct (located locate n) as [cls|e] eqn:En.
  - rewrite bind_Ok. rewrite IH; [reflexivity|].
    apply elem_of_cons in Hin as [->|Hin]; [|exact Hin].
    unfold located in En. now rewrite Hnone in En.
  - unfold located in En. destruct (locate n); [discriminate|].
    now injection En as <-.
Qed.

Lemma mapM_Forall2_Ok {A B : Type} (f : A -> result B) (l : list A) (out : list B) :
  Forall2 (fun a b => f a = Ok b) l out -> mapM f l = Ok out.
Proof.
  induction 1 as [|a b l out Hab _ IH]; [reflexivity|].
  cbn [mapM]. now rewrite Hab, bind_Ok, IH.
Qed.

(** X23: a check against a list of class names.  When one of the names
    is not the name of anything, the check raises a ValueError, also
    when the object is an instance of another class of the list; the
    check passes exactly when every name is found, [isinstance] answers
    for every class found, and one answer is yes; so the empty list
    rejects every object with a TypeError. *)
Theorem check_if_type_any_of object_ names :
  ((exists name, name ∈ names /\ locate name = None) ->
   check_if_type locate isinstance object_ (AnyOf names) = Raise ValueError) /\
  (check_if_type locate isinstance object_ (AnyOf names) = Ok tt <->
   exists classes answers,
     Forall2 (fun name cls => locate name = Some cls) names classes /\
     Forall2 (fun cls answer => isinstance object_ cls = Ok answer) classes answers /\
     true ∈ answers) /\
  check_if_type locate isinstance object_ (AnyOf []) = Raise TypeError.
Proof.
  split; [|split; [|reflexivity]].
  - intros (name & Hin & Hnone). simpl.
    now rewrite (mapM_located_raise names name Hin Hnone).
  - simpl. split.
    + destruct (mapM (located locate) names) as [classes|e] eqn:Hc; [|discriminate].
      destruct (mapM (isinstance object_) classes) as [answers|e] eqn:Ha; [|discriminate].
      destruct (existsb id answers) eqn:Hany; [|discriminate]. intros _.
      exists classes, answers. split; [|split].
      * apply mapM_Ok_Forall2 in Hc. eapply Forall2_impl; [exact Hc|].
        intros name cls. unfold located. destruct (locate name); congruence.
      * now apply mapM_Ok_Forall2.
      * apply existsb_exists in Hany as (b & Hb & Hid). simpl in Hid. subst b.
        now apply list_elem_of_In.
    + intros (classes & answers & Hc & Ha & Hyes).
      rewrite (mapM_Forall2_Ok _ names classes).
      * rewrite (mapM_Forall2_Ok _ classes answers Ha).
        assert (Hany : existsb id answers = true)
          by (apply existsb_exists; exists true; split; [now apply list_elem_of_In | reflexivity]).
        now rewrite Hany.
      * eapply Forall2_impl; [exact Hc|]. intros name cls E. unfold located. now rewrite E.
Qed.

(** X24: the checks of a call.  The values are checked against the types
    position by position, as far as the shortest of the three lists
    goes: what lies beyond is never checked.  The call passes exactly
    when every check made passes, and otherwise raises what the first
    failing check raises. *)
Theorem check_function_args_first_failure values arguments types :
  (check_function_args locate isinstance values arguments types = Ok tt <->
   forall i value type_,
     (i < length arguments)%nat -> values !! i = Some value -> types !! i = Some type_ ->
     check_if_type locate isinstance value type_ = Ok tt) /\
  (forall e,
     check_function_args locate isinstance values arguments types = Raise e <->
     exists i value type_,
       (i < length arguments)%nat /\ values !! i = Some value /\ types !! i = Some type_ /\
       check_if_type locate isinstance value type_ = Raise e /\
       forall j value' type',
         (j < i)%nat -> values !! j = Some value' -> types !! j = Some type' ->
         check_if_type locate isinstance value' type' = Ok tt).
Proof.
  revert arguments types.
  induction values as [|value values IH]; intros arguments types.
  { split; [split; [intros _ i v t _ Hv; discriminate | reflexivity]|].
    intros e. split; [discriminate|]. intros (i & v & t & _ & Hv & _). discriminate. }
  destruct types as [|type_ types].
  { split; [split; [intros _ i v t _ _ Ht; discriminate | reflexivity]|].
    intros e. split; [discriminate|]. intros (i & v & t & _ & _ & Ht & _). discriminate. }
  destruct arguments as [|arg arguments].
  { split; [split; [intros _ i v t Hi; simpl in Hi; lia | reflexivity]|].
    intros e. split; [discriminate|]. intros (i & v & t & Hi & _). simpl in Hi. lia. }
  specialize (IH arguments types) as [IHok IHraise].
  cbn [check_function_args].
  destruct (check_if_type locate isinstance value type_) as [[]|e0] eqn:Hhead.
  - rewrite bind_Ok. split.
    + rewrite IHok. split.
      * intros Hall [|i] v t Hi Hv Ht; simpl in *.
        -- congruence.
        -- apply (Hall i); [lia | assumption..].
      * intros Hall i v t Hi Hv Ht. apply (Hall (S i)); simpl; [lia | assumption..].
    + intros e. rewrite IHraise. split.
      * intros (i & v & t & Hi & Hv & Ht & He & Hbefore).
        exists (S i), v, t. simpl. repeat split; [lia | assumption.. |].
        intros [|j] v' t' Hj Hv' Ht'; simpl in *; [congruence|].
        apply (Hbefore j); [lia | assumption..].
      * intros ([|i] & v & t & Hi & Hv & Ht & He & Hbefore); simpl in *.
        -- congruence.
        -- exists i, v, t. repeat split; [lia | assumption.. |].
           intros j v' t' Hj Hv' Ht'. apply (Hbefore (S j)); simpl; [lia | assumption..].
  - split.
    + split; [discriminate|]. intros Hall.
      specialize (Hall 0%nat value type_ ltac:(simpl; lia) eq_refl eq_refl). congruence.
    + intros e. simpl. split.
      * intros [= <-]. exists 0%nat, value, type_. simpl.
        repeat split; [lia | assumption |]. intros j v' t' Hj. lia.
      * intros ([|i] & v & t & Hi & Hv & Ht & He & Hbefore); simpl in *.
        -- congruence.
        -- specialize (Hbefore 0%nat value type_ ltac:(lia) eq_refl eq_refl). congruence.
Qed.
End DocsFacts.

Lemma check_if_type_any_of_witness :
  let locate := fun name : string =>
    if String.eqb name "str" then Some true
    else if String.eqb name "int" then Some false else None in
  let isinstance := fun (o : StrOrInt) (cls : bool) =>
    Ok match o, cls with AStr _, true | AnInt _, false => true | _, _ => false end in
  check_if_type locate isinstance (AStr "gsw") (AnyOf ["str"; "integer"]) = Raise ValueError.
Proof.
  intros locate isinstance.
  apply (proj1 (check_if_type_any_of locate isinstance (AStr "gsw") ["str"; "integer"])).
  exists "integer". split; [right; left | reflexivity].
Defined.

Lemma check_function_args_first_failure_witness :
  let locate := fun name : string =>
    if String.eqb name "str" then Some true
    else if String.eqb name "int" then Some false else None in
  let isinstance := fun (o : StrOrInt) (cls : bool) =>
    Ok match o, cls with AStr _, true | AnInt _, false => true | _, _ => false end in
  check_function_args locate isinstance [AStr "gsw"; AStr "2016"; AnInt 3]
    ["team_or_code"; "year"; "extra"] [AnyOf ["str"; "int"]; OneType "int"]
  = Raise TypeError.
Proof.
  intros locate isinstance.
  apply (proj2 (check_function_args_first_failure locate isinstance
                  [AStr "gsw"; AStr "2016"; AnInt 3] ["team_or_code"; "year"; "extra"]
                  [AnyOf ["str"; "int"]; OneType "int"]) TypeError).
  exists 1%nat, (AStr "2016"), (OneType "int"). simpl.
  repeat split; [lia|]. intros [|[|j]] v t Hj Hv Ht; simpl in *; try lia.
  injection Hv as <-. injection Ht as <-. reflexivity.
Defined.

(** ** Dates without a slash ([utils.date_convert]) *)

Lemma replace_all_char o : forall s,
  Str.contains o (Str.replace_from (String o EmptyString) EmptyString None 0 s) = false.
Proof.
  induction s as [|c s IH]; [reflexivity|].
  cbn [Str.replace_from]. cbn [andb String.prefix].
  destruct (Ascii.eqb_spec o c) as [->|Hne].
  - destruct (Ascii.ascii_dec c c) as [_|Hcc]; [|congruence].
    assert (Hp : String.prefix EmptyString s = true) by now destruct s.
    rewrite Hp. exact IH.
  - destruct (Ascii.ascii_dec o c) as [E|_]; [congruence|].
    cbn [Str.contains]. apply Ascii.eqb_neq in Hne. now rewrite Hne.
Qed.

(** X25: a date that is converted has no slash left, whatever the label
    was. *)
Theorem date_convert_no_slash date out :
  date_convert date = Ok out -> Str.contains "/" out = false.
Proof.
  unfold date_convert.
  destruct (Str.int_of_digits <$> Str.findall_digits date) as [|m rest]; [discriminate|].
  destruct (number_to_month !! m) as [month|]; [|discriminate].
  intros [= <-]. apply replace_all_char.
Qed.

Lemma date_convert_no_slash_witness : Str.contains "/" "Sat, May 7" = false.
Proof. apply (date_convert_no_slash "Sat 5/7" "Sat, May 7"). reflexivity. Defined.

(** ** From the team table to the highlighted games *)

Lemma filter_fmap {A B : Type} (f : A -> B) (P : B -> Prop) `{forall b, Decision (P b)}
    (l : list A) :
  filter P (f <$> l) = f <$> filter (fun a => P (f a)) l.
Proof.
  induction l as [|a l IH]; [reflexivity|].
  rewrite fmap_cons. destruct (decide (P (f a))) as [Hp|Hp].
  - rewrite !filter_cons_True by exact Hp. now rewrite fmap_cons, IH.
  - rewrite !filter_cons_False by exact Hp. exact IH.
Qed.

(** X26: classifying and splitting compose.  On a team table with
    distinct labels the classified table is split without an error for
    every requested colour, and the highlighted games are, label for
    label, the games of the team whose category has that colour. *)
Theorem classify_then_split T P1 P2 c0 c1 both_color neutral_color neutral_ecolor
    keep_color grey_color :
  NoDup T.*1 ->
  exists T' grey high,
    in_dfs_to_color T [P1; P2] [c0; c1] both_color neutral_color neutral_ecolor = Ok T' /\
    get_plotting_dfs T' keep_color grey_color = Ok (grey, high) /\
    high = filter (has_color keep_color) T' /\
    high.*1
    = (filter (fun r : label * GameRow =>
                 category_color (category_of (row_in_df r.2 P1) (row_in_df r.2 P2))
                   (c0, c1) both_color neutral_color = keep_color) T).*1.
Proof.
  intros Hnd. rewrite in_dfs_to_color_rows.
  set (f := colored P1 P2 c0 c1 both_color neutral_color neutral_ecolor).
  assert (Hl : (f <$> T).*1 = T.*1).
  { rewrite <- list_fmap_compose. now apply list_fmap_ext. }
  eexists _, _, _. split; [reflexivity|].
  split; [apply get_plotting_dfs_cases; now rewrite Hl|].
  split; [reflexivity|].
  rewrite filter_fmap. rewrite <- !list_fmap_compose.
  erewrite (list_filter_iff (fun a => has_color keep_color (f a))).
  - now apply list_fmap_ext.
  - intros [l r]. unfold has_color, f, colored. simpl. split; congruence.
Qed.

Lemma classify_then_split_witness :
  let T := [(0, {| x := 100; y := 90; date := "A" |});
            (1, {| x := 80; y := 95; date := "B" |})] in
  let P1 := [(0, {| x := 100; y := 90; date := "A" |})] in
  let P2 := [(0, {| x := 80; y := 95; date := "B" |})] in
  exists T' grey high,
    in_dfs_to_color T [P1; P2] ["#EF798A"; "#68C5DB"] "#ABA2E9" "#666666" "#000000" = Ok T' /\
    get_plotting_dfs T' "#68C5DB" "#E0E0E0" = Ok (grey, high) /\
    high.*1 = [1].
Proof.
  intros T P1 P2.
  destruct (classify_then_split T P1 P2 "#EF798A" "#68C5DB" "#ABA2E9" "#666666" "#000000"
              "#68C5DB" "#E0E0E0")
    as (T' & grey & high & H1 & H2 & _ & H3).
  - apply (bool_decide_unpack _). vm_compute. exact I.
  - exists T', grey, high. split; [exact H1|]. split; [exact H2|].
    rewrite H3. reflexivity.
Defined.

(** ** What the final data hold ([parsing.get_final_data]) *)

Lemma snd_zip_take {A B : Type} (l : list A) : forall k : list B,
  (zip l k).*2 = take (length l) k.
Proof.
  induction l as [|a l IH]; intros [|b k]; simpl; try reflexivity.
  f_equal. apply IH.
Qed.

Lemma thirds_zip4 {A B C D : Type} (a : list A) (b : list B) (c : list C) (d : list D) :
  (fun r : A * B * C * D => r.1.2) <$> zip4 a b c d
  = take (Nat.min (length d) (Nat.min (length a) (length b))) c.
Proof.
  transitivity ((zip4 a b c d).*1).*2; [rewrite <- !list_fmap_compose; reflexivity|].
  unfold zip4. rewrite fst_zip_take, fmap_take, snd_zip_take, length_zip.
  now rewrite take_take.
Qed.

Lemma firsts_zip4 {A B C D : Type} (a : list A) (b : list B) (c : list C) (d : list D) :
  (fun r : A * B * C * D => r.1.1.1) <$> zip4 a b c d
  = take (Nat.min (Nat.min (length d) (length c)) (length b)) a.
Proof.
  transitivity (((zip4 a b c d).*1).*1).*1; [rewrite <- !list_fmap_compose; reflexivity|].
  unfold zip4.
  rewrite fst_zip_take, !fmap_take, fst_zip_take, fmap_take, fst_zip_take.
  now rewrite !take_take.
Qed.

Lemma take_min_length {A : Type} (l : list A) n : take (Nat.min n (length l)) l = take n l.
Proof.
  destruct (Nat.le_ge_cases n (length l)).
  - now rewrite Nat.min_l.
  - rewrite Nat.min_r by assumption. now rewrite !take_ge by lia.
Qed.

(** The steps of [get_final_data] that returned. *)
Lemma get_final_data_steps df colors neutral_color player_names out :
  get_final_data df colors neutral_color player_names = Ok out ->
  exists df_tuples percentages n0 n1,
    Forall2 (fun c d => get_plotting_dfs df c neutral_color = Ok d) colors df_tuples /\
    Forall2 (fun c p =>
               get_wins_percentage
                 (Pd.select df (Pd.column (fun r => Pd.cell_eq_str (color r) c) df)) 2
               = Ok p) colors percentages /\
    sort_as_one percentages df_tuples colors
      ["with " +:+ n0 +:+ " and no " +:+ n1; "with " +:+ n1 +:+ " and no " +:+ n0;
       "with both " +:+ n0 +:+ " and " +:+ n1; "with neither " +:+ n0 +:+ " and " +:+ n1]
      true = Ok out.
Proof.
  intros Hrun. unfold get_final_data in Hrun.
  apply bind_Ok_inv in Hrun as (df_tuples & Htup & Hrun).
  apply bind_Ok_inv in Hrun as (percentages & Hperc & Hrun).
  apply bind_Ok_inv in Hrun as (n0 & _ & Hrun).
  apply bind_Ok_inv in Hrun as (n1 & _ & Hrun).
  exists df_tuples, percentages, n0, n1.
  split; [now apply mapM_Ok_Forall2|]. split; [now apply mapM_Ok_Forall2 | exact Hrun].
Qed.

(** X27: what [get_final_data] returns.  The colours returned are the
    first four colours given, in another order; the four sequences have
    equal lengths; and position by position the ratio and the pair of
    tables are those of the colour at that position. *)
Theorem get_final_data_rows df colors neutral_color player_names
    percentages df_tuples colors' text_ends :
  get_final_data df colors neutral_color player_names
  = Ok (Some (percentages, df_tuples, colors', text_ends)) ->
  colors' ≡ₚ take 4 colors /\
  length percentages = length colors' /\ length df_tuples = length colors' /\
  length text_ends = length colors' /\
  forall k c, colors' !! k = Some c ->
    exists p d,
      percentages !! k = Some p /\ df_tuples !! k = Some d /\
      get_wins_percentage
        (Pd.select df (Pd.column (fun r => Pd.cell_eq_str (color r) c) df)) 2 = Ok p /\
      get_plotting_dfs df c neutral_color = Ok d.
Proof.
  intros Hrun.
  apply get_final_data_steps in Hrun as (ds0 & ps0 & n0 & n1 & Htup & Hperc & Hrun).
  apply sort_as_one_Some in Hrun as (Hperm & Hlt & Hlc & Hltx).
  pose proof (Forall2_length _ _ _ Htup) as Hlen1.
  pose proof (Forall2_length _ _ _ Hperc) as Hlen2.
  split; [|split; [lia|split; [lia|split; [lia|]]]].
  - apply (fmap_Permutation (fun r => r.1.2)) in Hperm.
    rewrite !thirds_zip4 in Hperm.
    rewrite Hltx, Hlt, !Nat.min_id, <- Hlc, firstn_all in Hperm.
    rewrite Hperm. rewrite <- Hlen1, <- Hlen2, Nat.min_id. simpl length.
    now rewrite take_min_length.
  - intros k c Hk.
    destruct (lookup_lt_is_Some_2 percentages k) as [p Hp];
      [apply lookup_lt_Some in Hk; lia|].
    destruct (lookup_lt_is_Some_2 df_tuples k) as [d Hd];
      [apply lookup_lt_Some in Hk; lia|].
    destruct (lookup_lt_is_Some_2 text_ends k) as [tx Htx];
      [apply lookup_lt_Some in Hk; lia|].
    exists p, d. split; [exact Hp|]. split; [exact Hd|].
    assert (Hin : (p, d, c, tx) ∈ zip4 percentages df_tuples colors' text_ends).
    { eapply list_elem_of_lookup_2. apply lookup_zip4. eauto. }
    rewrite Hperm in Hin. apply list_elem_of_lookup in Hin as [i Hi].
    apply lookup_zip4 in Hi as (Hp' & Hd' & Hc' & _).
    split.
    + exact (Forall2_lookup_lr _ _ _ _ _ _ Hperc Hc' Hp').
    + exact (Forall2_lookup_lr _ _ _ _ _ _ Htup Hc' Hd').
Qed.

Lemma get_final_data_rows_witness :
  exists percentages df_tuples colors' text_ends,
    get_final_data mixed_season four_colors "#E0E0E0" ["Curry"; "Durant"]
    = Ok (Some (percentages, df_tuples, colors', text_ends)) /\
    colors' ≡ₚ take 4 four_colors.
Proof.
  destruct (get_final_data mixed_season four_colors "#E0E0E0" ["Curry"; "Durant"])
    as [[[[[percentages df_tuples] colors'] text_ends]|]|] eqn:Hrun;
    try (vm_compute in Hrun; discriminate).
  exists percentages, df_tuples, colors', text_ends. split; [reflexivity|].
  apply (get_final_data_rows mixed_season four_colors "#E0E0E0" ["Curry"; "Durant"]
           percentages df_tuples colors' text_ends Hrun).
Defined.

Lemma forallb_false_lookup {A : Type} (f : A -> bool) (l : list A) :
  forallb f l = false -> exists i a, l !! i = Some a /\ f a = false.
Proof.
  induction l as [|a l IH]; [discriminate|]. simpl.
  destruct (f a) eqn:E.
  - intros H. destruct (IH H) as (i & b & Hi & Hb). now exists (S i), b.
  - intros _. now exists 0%nat, a.
Qed.

Lemma all_distinct_false ks :
  all_distinct ks = false ->
  exists i j p q, i <> j /\ ks !! i = Some p /\ ks !! j = Some q /\ Num.eqb p q = true.
Proof.
  induction ks as [|k ks IH]; [discriminate|]. simpl.
  destruct (forallb (fun k' => negb (Num.eqb k k')) ks) eqn:E.
  - intros H. destruct (IH H) as (i & j & p & q & Hij & Hi & Hj & Heq).
    exists (S i), (S j), p, q. repeat split; auto.
  - intros _. apply forallb_false_lookup in E as (j & q & Hj & Hq).
    apply negb_false_iff in Hq.
    exists 0%nat, (S j), k, q. repeat split; auto.
Qed.

Lemma StronglySorted_ratios (R : PyNum -> PyNum -> Prop)
    (l : list (PyNum * (DataFrame ColoredRow * DataFrame ColoredRow) * string * string)) :
  StronglySorted (fun a b => R (ratio_of a) (ratio_of b)) l ->
  StronglySorted R (ratio_of <$> l).
Proof.
  induction 1 as [|a l Hs IH Ha]; [constructor|].
  rewrite fmap_cons. constructor; [exact IH|].
  apply Forall_fmap. exact Ha.
Qed.

(** X28: when [get_final_data] returns.  On a table with distinct
    labels, with the ratios of the colours computed (none a NaN), two
    names and a colour at least, [get_final_data] returns exactly when
    the ratios of the first four colours are pairwise different: it
    then returns them in strictly descending order, and raises a
    ValueError otherwise. *)
Theorem get_final_data_returns df colors neutral_color player_names ratios :
  NoDup df.*1 ->
  mapM (fun color_ =>
          get_wins_percentage
            (Pd.select df (Pd.column (fun r => Pd.cell_eq_str (color r) color_) df)) 2)
       colors = Ok ratios ->
  no_nan ratios = true ->
  (2 <= length player_names)%nat ->
  colors <> [] ->
  if all_distinct (take 4 ratios)
  then exists percentages df_tuples colors' text_ends,
         get_final_data df colors neutral_color player_names
         = Ok (Some (percentages, df_tuples, colors', text_ends)) /\
         StronglySorted (fun a b => Num.ltb b a = true) percentages
  else get_final_data df colors neutral_color player_names = Raise ValueError.
Proof.
  intros Hnd Hperc Hnan Hnames Hcolors.
  pose proof (Forall2_length _ _ _ (mapM_Ok_Forall2 _ _ _ Hperc)) as Hlen.
  destruct (all_distinct (take 4 ratios)) eqn:Hdist.
  - unfold get_final_data.
    rewrite (mapM_pure _ (fun c =>
               (match filter (fun r => ~ has_color c r) df with
                | [] => phantom neutral_color <$> df
                | rest => greyed neutral_color <$> rest
                end, filter (has_color c) df)))
      by (intros c; now apply get_plotting_dfs_cases).
    rewrite bind_Ok, Hperc, bind_Ok.
    destruct player_names as [|n0 [|n1 names]]; simpl in Hnames; try lia.
    change (getitem (n0 :: n1 :: names) 0) with (Ok (A := string) n0).
    change (getitem (n0 :: n1 :: names) 1) with (Ok (A := string) n1).
    rewrite !bind_Ok. unfold sort_as_one.
    match goal with |- context [sorted ?r true] => set (rows := r) end.
    assert (Hratios : ratio_of <$> rows = take 4 ratios).
    { unfold ratio_of, rows. rewrite firsts_zip4, length_fmap.
      match goal with |- take ?n _ = _ =>
        replace n with (Nat.min 4 (length ratios)) by (simpl length; lia) end.
      apply take_min_length. }
    destruct (sorted_by_ratio rows) as (out & -> & Hperm & Hs).
    + rewrite Hratios. now apply no_nan_take.
    + now rewrite Hratios.
    + assert (Hne : out <> []).
      { intros ->. apply Permutation_nil_l in Hperm.
        apply (f_equal (fmap ratio_of)) in Hperm. rewrite Hratios in Hperm.
        destruct colors; [congruence|]. destruct ratios; [discriminate|]. discriminate. }
      destruct out as [|r out]; [congruence|].
      eexists _, _, _, _. split; [reflexivity|].
      apply (StronglySorted_ratios (fun a b => Num.ltb b a = true) (r :: out)).
      exact Hs.
  - apply all_distinct_false in Hdist as (i & j & p & q & Hij & Hi & Hj & Heq).
    apply lookup_take_Some in Hi as [Hi Hi4]. apply lookup_take_Some in Hj as [Hj Hj4].
    unfold get_final_data.
    rewrite (mapM_pure _ (fun c =>
               (match filter (fun r => ~ has_color c r) df with
                | [] => phantom neutral_color <$> df
                | rest => greyed neutral_color <$> rest
                end, filter (has_color c) df)))
      by (intros c; now apply get_plotting_dfs_cases).
    rewrite bind_Ok, Hperc, bind_Ok.
    destruct player_names as [|n0 [|n1 names]]; simpl in Hnames; try lia.
    change (getitem (n0 :: n1 :: names) 0) with (Ok (A := string) n0).
    change (getitem (n0 :: n1 :: names) 1) with (Ok (A := string) n1).
    rewrite !bind_Ok.
    apply lookup_lt_Some in Hi as Hi'. apply lookup_lt_Some in Hj as Hj'.
    apply (sort_as_one_tie_raises _ _ _ _ true i j p q); auto;
      rewrite ?length_fmap; simpl; lia.
Qed.

Lemma get_final_data_returns_witness :
  exists percentages df_tuples colors' text_ends,
    get_final_data mixed_season four_colors "#E0E0E0" ["Curry"; "Durant"]
    = Ok (Some (percentages, df_tuples, colors', text_ends)) /\
    StronglySorted (fun a b => Num.ltb b a = true) percentages.
Proof.
  assert (Hperc : exists ratios,
             mapM (fun color_ =>
                     get_wins_percentage
                       (Pd.select mixed_season
                          (Pd.column (fun r => Pd.cell_eq_str (color r) color_) mixed_season)) 2)
                  four_colors = Ok ratios /\
             no_nan ratios = true /\ all_distinct (take 4 ratios) = true).
  { eexists. split; [vm_compute; reflexivity|]. split; vm_compute; reflexivity. }
  destruct Hperc as (ratios & Hperc & Hnan & Hdist).
  pose proof (get_final_data_returns mixed_season four_colors "#E0E0E0" ["Curry"; "Durant"]
                ratios) as H.
  rewrite Hdist in H. apply H; [|exact Hperc | exact Hnan | simpl; lia | discriminate].
  apply (bool_decide_unpack _). vm_compute. exact I.
Defined.
